(** * API-key middleware and the PostgreSQL storage adapter

    A shallow embedding of the Express middleware [validateApiKey],
    [trackApiUsage] and [verifyDomain], and of the [PgStorage] class that
    implements the [IStorage] interface with a query builder.

    - JavaScript strings are [string]s; [startsWith], [endsWith] and the
      one-argument [substring] are written out.
    - A table is the list of its rows in the order the store returns them
      when a statement has no ordering clause.
    - The schema module is not among the sources: a row is a record of the
      columns that the adapter and the middleware mention, followed by the
      remaining columns as a name/value list.
    - A call into storage either returns or throws: [result]. *)

From Stdlib Require Import String Ascii List ZArith Bool Lia.
From Stdlib Require Import Permutation Sorted DecimalString.
Import ListNotations.

Local Open Scope string_scope.
Local Open Scope Z_scope.

(** ** JavaScript string primitives *)

Module Js.

(** [s.startsWith(p)] *)
Definition startsWith (s p : string) : bool := String.prefix p s.

(** [s.substring(n)]: the code units from index [n] to the end. *)
Fixpoint substring (n : nat) (s : string) : string :=
  match n, s with
  | O, _ => s
  | S n', String _ s' => substring n' s'
  | S _, EmptyString => EmptyString
  end.

(** [s.endsWith(p)] *)
Definition endsWith (s p : string) : bool :=
  (String.length p <=? String.length s)%nat
  && String.eqb (substring (String.length s - String.length p) s) p.

(** [n.toString()] for an integral number. *)
Definition toString (n : Z) : string := NilZero.string_of_int (Z.to_int n).

(** Truthiness of a header value: [undefined] and the empty string are falsy. *)
Definition truthy (v : option string) : bool :=
  match v with
  | Some (String _ _) => true
  | _ => false
  end.

(** [a || b] on header values. *)
Definition or (a b : option string) : option string :=
  if truthy a then a else b.

(** Template-literal rendering of a header value. *)
Definition show (v : option string) : string :=
  match v with
  | Some s => s
  | None => "undefined"
  end.

End Js.

(** ** Rows of the tables *)

(** Modelled from the spec: the row types of the schema module, which is
    not among the sources.  Entities are flat records with a surrogate
    numeric or string identifier; each record below has the columns that the
    adapter and the middleware name, and keeps the others as [Cols]. *)
Definition Cols := list (string * string).

(** Modelled from the spec: the [portfolioItems] row of the schema module. *)
Record PortfolioItem := {
  portfolioItems_id : Z;
  portfolioItems_other : Cols }.

(** Modelled from the spec: the [blogPosts] row of the schema module;
    [publishDate] is taken as a point in time. *)
Record BlogPost := {
  blogPosts_id : Z;
  blogPosts_publishDate : Z;
  blogPosts_other : Cols }.

(** Modelled from the spec: the [agents] row of the schema module. *)
Record Agent := {
  agents_agentId : string;
  agents_userId : string;
  agents_status : string;
  agents_updatedAt : Z;
  agents_other : Cols }.

(** Modelled from the spec: the [apiKeys] row of the schema module: an
    opaque token string with an active/inactive flag. *)
Record ApiKey := {
  apiKeys_id : Z;
  apiKeys_key : string;
  apiKeys_userId : string;
  apiKeys_active : bool;
  apiKeys_lastUsed : option Z;
  apiKeys_other : Cols }.

(** Modelled from the spec: the [agentIntegrations] row of the schema
    module: one permitted domain, exact or wildcard, for a key. *)
Record AgentIntegration := {
  agentIntegrations_id : Z;
  agentIntegrations_agentId : string;
  agentIntegrations_apiKeyId : Z;
  domain : string;
  agentIntegrations_active : bool;
  agentIntegrations_updatedAt : Z;
  agentIntegrations_other : Cols }.

(** A request body as the body parser left it, or [null]. *)
Inductive JsValue :=
| JsUndefined
| JsNull
| JsJson (text : string).

(** The object literal handed to [recordApiUsage]. *)
Record InsertApiUsage := {
  apiKeyId : Z;
  endpoint : string;
  statusCode : string;
  requestPayload : JsValue }.

(** Modelled from the spec: the [apiUsage] row of the schema module: the
    inserted columns and the generated key. *)
Record ApiUsage := {
  apiUsage_id : Z;
  apiUsage_values : InsertApiUsage }.

(** Modelled from the spec: the [tixaeApiEndpoints] row of the schema
    module. *)
Record TixaeApiEndpoint := {
  tixaeApiEndpoints_id : Z;
  tixaeApiEndpoints_name : string;
  tixaeApiEndpoints_other : Cols }.

(** Modelled from the spec: the [tixaeAgentTemplates] row of the schema
    module. *)
Record TixaeAgentTemplate := {
  tixaeAgentTemplates_id : Z;
  tixaeAgentTemplates_name : string;
  tixaeAgentTemplates_other : Cols }.

Record Tables := {
  portfolioItems : list PortfolioItem;
  blogPosts : list BlogPost;
  agents : list Agent;
  apiKeys : list ApiKey;
  agentIntegrations : list AgentIntegration;
  apiUsage : list ApiUsage;
  tixaeApiEndpoints : list TixaeApiEndpoint;
  tixaeAgentTemplates : list TixaeAgentTemplate }.

(** ** The query builder *)

Module Query.

(** A column type, with the comparison that [eq(column, value)] makes. *)
Class Column (T : Type) := {
  same : T -> T -> bool;
  same_iff : forall a b, same a b = true <-> a = b }.

#[global] Instance Column_Z : Column Z :=
  {| same := Z.eqb; same_iff := Z.eqb_eq |}.

#[global] Instance Column_string : Column string :=
  {| same := String.eqb; same_iff := String.eqb_eq |}.

#[global] Instance Column_bool : Column bool :=
  {| same := Bool.eqb; same_iff := Bool.eqb_true_iff |}.

(** [eq(column, value)] *)
Definition eq {R T : Type} `{Column T} (col : R -> T) (v : T) : R -> bool :=
  fun r => same (col r) v.

Section Builder.
Context {R : Type}.

(** [db.select().from(t)] *)
Definition from (t : list R) : list R := t.

(** [.where(cond)] *)
Definition where_ (cond : R -> bool) (rows : list R) : list R :=
  List.filter cond rows.

(** The placement of one row in a list already in descending order. *)
Fixpoint place (col : R -> Z) (r : R) (rows : list R) : list R :=
  match rows with
  | [] => [r]
  | x :: rest => if col x <=? col r then r :: x :: rest
                 else x :: place col r rest
  end.

(** [.orderBy(desc(col))] *)
Definition orderBy_desc (col : R -> Z) (rows : list R) : list R :=
  List.fold_right (place col) [] rows.

(** [rows.length > 0 ? rows[0] : undefined] *)
Definition first (rows : list R) : option R :=
  match rows with
  | [] => None
  | r :: _ => Some r
  end.

(** [db.update(t).set(v).where(cond)]: the table afterwards.  A rewritten
    row is kept at its place here; the place at which the store lists it
    afterwards is not fixed. *)
Definition update (set : R -> R) (cond : R -> bool) (t : list R) : list R :=
  List.map (fun r => if cond r then set r else r) t.

(** [.returning()] of that update: the rows as written. *)
Definition update_returning (set : R -> R) (cond : R -> bool) (t : list R)
  : list R :=
  List.map set (List.filter cond t).

End Builder.

(** [and(c1, c2)] *)
Definition and {R : Type} (c1 c2 : R -> bool) : R -> bool :=
  fun r => c1 r && c2 r.

End Query.

(** ** PgStorage *)

Module PgStorage.

Definition with_agents (t : Tables) (v : list Agent) : Tables :=
  {| portfolioItems := portfolioItems t; blogPosts := blogPosts t;
     agents := v; apiKeys := apiKeys t;
     agentIntegrations := agentIntegrations t; apiUsage := apiUsage t;
     tixaeApiEndpoints := tixaeApiEndpoints t;
     tixaeAgentTemplates := tixaeAgentTemplates t |}.

Definition with_apiKeys (t : Tables) (v : list ApiKey) : Tables :=
  {| portfolioItems := portfolioItems t; blogPosts := blogPosts t;
     agents := agents t; apiKeys := v;
     agentIntegrations := agentIntegrations t; apiUsage := apiUsage t;
     tixaeApiEndpoints := tixaeApiEndpoints t;
     tixaeAgentTemplates := tixaeAgentTemplates t |}.

Definition with_agentIntegrations (t : Tables) (v : list AgentIntegration)
  : Tables :=
  {| portfolioItems := portfolioItems t; blogPosts := blogPosts t;
     agents := agents t; apiKeys := apiKeys t;
     agentIntegrations := v; apiUsage := apiUsage t;
     tixaeApiEndpoints := tixaeApiEndpoints t;
     tixaeAgentTemplates := tixaeAgentTemplates t |}.

Definition with_apiUsage (t : Tables) (v : list ApiUsage) : Tables :=
  {| portfolioItems := portfolioItems t; blogPosts := blogPosts t;
     agents := agents t; apiKeys := apiKeys t;
     agentIntegrations := agentIntegrations t; apiUsage := v;
     tixaeApiEndpoints := tixaeApiEndpoints t;
     tixaeAgentTemplates := tixaeAgentTemplates t |}.

(** *** Portfolio *)

Definition getPortfolioItems (db : Tables) : list PortfolioItem :=
  Query.from (portfolioItems db).

Definition getPortfolioItem (id : Z) (db : Tables) : option PortfolioItem :=
  let items :=
    Query.where_ (Query.eq portfolioItems_id id)
      (Query.from (portfolioItems db)) in
  Query.first items.

(** *** Blog *)

Definition getBlogPosts (db : Tables) : list BlogPost :=
  Query.orderBy_desc blogPosts_publishDate (Query.from (blogPosts db)).

Definition getBlogPost (id : Z) (db : Tables) : option BlogPost :=
  let posts :=
    Query.where_ (Query.eq blogPosts_id id)
      (Query.from (blogPosts db)) in
  Query.first posts.

(** *** Agents *)

Definition getAgentById (agentId : string) (db : Tables) : option Agent :=
  let items :=
    Query.where_ (Query.eq agents_agentId agentId)
      (Query.from (agents db)) in
  Query.first items.

Definition getAgentsByUserId (userId : string) (db : Tables) : list Agent :=
  Query.where_ (Query.eq agents_userId userId)
    (Query.from (agents db)).

Definition set_status (status : string) (now : Z) (r : Agent) : Agent :=
  {| agents_agentId := agents_agentId r; agents_userId := agents_userId r;
     agents_status := status; agents_updatedAt := now;
     agents_other := agents_other r |}.

(** [now] is the value of [new Date()] at the call. *)
Definition updateAgentStatus (agentId status : string) (now : Z) (db : Tables)
  : Tables * option Agent :=
  let cond := Query.eq agents_agentId agentId in
  let result := Query.update_returning (set_status status now) cond (agents db) in
  (with_agents db (Query.update (set_status status now) cond (agents db)),
   Query.first result).

(** *** API keys *)

Definition getApiKeyById (id : Z) (db : Tables) : option ApiKey :=
  let keys :=
    Query.where_ (Query.eq apiKeys_id id) (Query.from (apiKeys db)) in
  Query.first keys.

Definition getApiKeysByUserId (userId : string) (db : Tables) : list ApiKey :=
  Query.where_ (Query.eq apiKeys_userId userId)
    (Query.from (apiKeys db)).

Definition validateApiKey (key : string) (db : Tables) : option ApiKey :=
  let keys :=
    Query.where_
      (Query.and (Query.eq apiKeys_key key)
                 (Query.eq apiKeys_active true))
      (Query.from (apiKeys db)) in
  Query.first keys.

Definition set_active (v : bool) (r : ApiKey) : ApiKey :=
  {| apiKeys_id := apiKeys_id r; apiKeys_key := apiKeys_key r;
     apiKeys_userId := apiKeys_userId r; apiKeys_active := v;
     apiKeys_lastUsed := apiKeys_lastUsed r;
     apiKeys_other := apiKeys_other r |}.

Definition deactivateApiKey (id : Z) (db : Tables) : Tables * option ApiKey :=
  let cond := Query.eq apiKeys_id id in
  let result := Query.update_returning (set_active false) cond (apiKeys db) in
  (with_apiKeys db (Query.update (set_active false) cond (apiKeys db)),
   Query.first result).

Definition set_lastUsed (now : Z) (r : ApiKey) : ApiKey :=
  {| apiKeys_id := apiKeys_id r; apiKeys_key := apiKeys_key r;
     apiKeys_userId := apiKeys_userId r; apiKeys_active := apiKeys_active r;
     apiKeys_lastUsed := Some now;
     apiKeys_other := apiKeys_other r |}.

Definition updateApiKeyLastUsed (id now : Z) (db : Tables) : Tables :=
  with_apiKeys db
    (Query.update (set_lastUsed now) (Query.eq apiKeys_id id) (apiKeys db)).

(** *** Agent integrations *)

Definition getIntegrationsByAgentId (agentId : string) (db : Tables)
  : list AgentIntegration :=
  Query.where_ (Query.eq agentIntegrations_agentId agentId)
    (Query.from (agentIntegrations db)).

Definition getIntegrationsByApiKeyId (apiKeyId : Z) (db : Tables)
  : list AgentIntegration :=
  Query.where_ (Query.eq agentIntegrations_apiKeyId apiKeyId)
    (Query.from (agentIntegrations db)).

Definition set_inactive (now : Z) (r : AgentIntegration) : AgentIntegration :=
  {| agentIntegrations_id := agentIntegrations_id r;
     agentIntegrations_agentId := agentIntegrations_agentId r;
     agentIntegrations_apiKeyId := agentIntegrations_apiKeyId r;
     domain := domain r;
     agentIntegrations_active := false;
     agentIntegrations_updatedAt := now;
     agentIntegrations_other := agentIntegrations_other r |}.

Definition deactivateIntegration (id now : Z) (db : Tables)
  : Tables * option AgentIntegration :=
  let cond := Query.eq agentIntegrations_id id in
  let result :=
    Query.update_returning (set_inactive now) cond (agentIntegrations db) in
  (with_agentIntegrations db
     (Query.update (set_inactive now) cond (agentIntegrations db)),
   Query.first result).

(** *** API usage *)

(** Modelled from the spec: the surrogate key the store generates for a new
    usage row, taken as one past the largest key in the table. *)
Definition next_usage_id (rows : list ApiUsage) : Z :=
  1 + List.fold_right (fun r m => Z.max (apiUsage_id r) m) 0 rows.

(** A value as an insert writes it: a column that is given [undefined] is
    left out of the statement and stored as [null]. *)
Definition stored_payload (v : JsValue) : JsValue :=
  match v with
  | JsUndefined => JsNull
  | _ => v
  end.

(** The columns of a usage row as the insert writes them. *)
Definition stored_values (usage : InsertApiUsage) : InsertApiUsage :=
  {| apiKeyId := apiKeyId usage;
     endpoint := endpoint usage;
     statusCode := statusCode usage;
     requestPayload := stored_payload (requestPayload usage) |}.

(** [db.insert(apiUsage).values(usage).returning()], then [result[0]]. *)
Definition recordApiUsage (usage : InsertApiUsage) (db : Tables)
  : Tables * ApiUsage :=
  let row := {| apiUsage_id := next_usage_id (apiUsage db);
                apiUsage_values := stored_values usage |} in
  (with_apiUsage db (apiUsage db ++ [row]), row).

Definition getApiUsageByKeyId (keyId : Z) (db : Tables) : list ApiUsage :=
  Query.where_ (Query.eq (fun r => apiKeyId (apiUsage_values r)) keyId)
    (Query.from (apiUsage db)).

(** *** TIXAE reference data *)

Definition getTixaeApiEndpoints (db : Tables) : list TixaeApiEndpoint :=
  Query.from (tixaeApiEndpoints db).

Definition getTixaeApiEndpoint (id : Z) (db : Tables)
  : option TixaeApiEndpoint :=
  let endpoints :=
    Query.where_ (Query.eq tixaeApiEndpoints_id id)
      (Query.from (tixaeApiEndpoints db)) in
  Query.first endpoints.

Definition getTixaeApiEndpointByName (name : string) (db : Tables)
  : option TixaeApiEndpoint :=
  let endpoints :=
    Query.where_ (Query.eq tixaeApiEndpoints_name name)
      (Query.from (tixaeApiEndpoints db)) in
  Query.first endpoints.

Definition getTixaeAgentTemplates (db : Tables) : list TixaeAgentTemplate :=
  Query.from (tixaeAgentTemplates db).

Definition getTixaeAgentTemplate (id : Z) (db : Tables)
  : option TixaeAgentTemplate :=
  let templates :=
    Query.where_ (Query.eq tixaeAgentTemplates_id id)
      (Query.from (tixaeAgentTemplates db)) in
  Query.first templates.

Definition getTixaeAgentTemplateByName (name : string) (db : Tables)
  : option TixaeAgentTemplate :=
  let templates :=
    Query.where_ (Query.eq tixaeAgentTemplates_name name)
      (Query.from (tixaeAgentTemplates db)) in
  Query.first templates.

End PgStorage.

(** ** The storage interface *)

(** The outcome of awaiting a call: a value, or a thrown error as the
    template literal [${error}] renders it. *)
Inductive result (A : Type) :=
| Ok (a : A)
| Throw (err : string).

Arguments Ok {A} a.
Arguments Throw {A} err.

(** Modelled from the spec: the [IStorage] interface of the storage module,
    which is not among the sources; here the methods that the middleware
    calls, over a store [Store]. *)
Class IStorage (Store : Type) := {
  storage_validateApiKey : string -> Store -> result (option ApiKey);
  storage_getIntegrationsByApiKeyId :
    Z -> Store -> result (list AgentIntegration);
  storage_recordApiUsage : InsertApiUsage -> Store -> Store * result ApiUsage }.

(** Modelled from the spec: the relational store behind the connection
    [db], which is not among the sources: its tables, whether the connection
    answers, and whether the server refuses writes, as a standby does. *)
Record Database := {
  tables : Tables;
  online : bool;
  read_only : bool }.

Definition connection_error : string := "Error: Connection terminated".

Definition read_only_error : string :=
  "error: cannot execute INSERT in a read-only transaction".

#[global] Instance PgStorage_IStorage : IStorage Database := {
  storage_validateApiKey key d :=
    if online d then Ok (PgStorage.validateApiKey key (tables d))
    else Throw connection_error;
  storage_getIntegrationsByApiKeyId id d :=
    if online d then Ok (PgStorage.getIntegrationsByApiKeyId id (tables d))
    else Throw connection_error;
  storage_recordApiUsage usage d :=
    if online d then
      if read_only d then (d, Throw read_only_error)
      else
        let (t, row) := PgStorage.recordApiUsage usage (tables d) in
        ({| tables := t; online := true; read_only := false |}, Ok row)
    else (d, Throw connection_error) }.

(** ** Requests and responses *)

Record Headers := {
  authorization : option string;
  origin : option string;
  referer : option string }.

Record Request := {
  req_headers : Headers;
  req_path : string;
  req_originalUrl : string;
  req_method : string;
  req_body : JsValue;
  req_apiKey : option ApiKey }.

(** The JSON bodies the middleware writes. *)
Record ErrorBody := { error : string }.

(** The function stored in [res.end]: the framework's own, or the closure
    that [trackApiUsage] creates, which captures [apiKey] and
    [originalEnd]. *)
Inductive EndFn :=
| nativeEnd
| trackedEnd (apiKey : ApiKey) (originalEnd : EndFn).

Record Response := {
  res_statusCode : Z;
  res_end : EndFn;
  res_sent : option ErrorBody;
  res_finished : nat }.

(** The calls made on [storage], in order. *)
Inductive StorageCall :=
| CallValidateApiKey (key : string)
| CallGetIntegrationsByApiKeyId (id : Z)
| CallRecordApiUsage (usage : InsertApiUsage).

Record World (Store : Type) := {
  req : Request;
  res : Response;
  storage : Store;
  calls : list StorageCall;
  logged : list string }.

Arguments req {Store} w.
Arguments res {Store} w.
Arguments storage {Store} w.
Arguments calls {Store} w.
Arguments logged {Store} w.

(** What a middleware did with the request: passed it on with [next()], or
    answered it.  The rest of the chain runs after the middleware returns
    [Next]; see [serve]. *)
Inductive Signal :=
| Next
| Done.

Definition with_apiKey (r : Request) (k : ApiKey) : Request :=
  {| req_headers := req_headers r; req_path := req_path r;
     req_originalUrl := req_originalUrl r; req_method := req_method r;
     req_body := req_body r; req_apiKey := Some k |}.

Definition with_end (r : Response) (f : EndFn) : Response :=
  {| res_statusCode := res_statusCode r; res_end := f;
     res_sent := res_sent r; res_finished := res_finished r |}.

Definition with_status (r : Response) (code : Z) : Response :=
  {| res_statusCode := code; res_end := res_end r;
     res_sent := res_sent r; res_finished := res_finished r |}.

Definition with_sent (r : Response) (b : ErrorBody) : Response :=
  {| res_statusCode := res_statusCode r; res_end := res_end r;
     res_sent := Some b; res_finished := res_finished r |}.

Definition finish (r : Response) : Response :=
  {| res_statusCode := res_statusCode r; res_end := res_end r;
     res_sent := res_sent r; res_finished := S (res_finished r) |}.

Fixpoint wrappers (f : EndFn) : nat :=
  match f with
  | nativeEnd => O
  | trackedEnd _ g => S (wrappers g)
  end.

Definition is_record (c : StorageCall) : bool :=
  match c with
  | CallRecordApiUsage _ => true
  | _ => false
  end.

(** The queries among the calls: everything but the usage inserts. *)
Definition lookups (cs : list StorageCall) : list StorageCall :=
  List.filter (fun c => negb (is_record c)) cs.

(** The usage inserts among the calls. *)
Definition records (cs : list StorageCall) : list StorageCall :=
  List.filter is_record cs.

(** A fragment of [new URL(s).hostname], for the examples: lower-case
    [http] and [https] URLs with a plain host name parse; a string with no
    scheme makes the constructor throw. *)
Module Url.

Definition invalid : string := "TypeError: Invalid URL".

Definition delimiter (c : ascii) : bool :=
  Ascii.eqb c "/" || Ascii.eqb c "?" || Ascii.eqb c "#" || Ascii.eqb c ":".

Fixpoint host (s : string) : string :=
  match s with
  | EmptyString => EmptyString
  | String c r => if delimiter c then EmptyString else String c (host r)
  end.

Definition hostname (s : string) : result string :=
  let rest :=
    if String.prefix "https://" s then Some (Js.substring 8 s)
    else if String.prefix "http://" s then Some (Js.substring 7 s)
    else None in
  match rest with
  | Some r =>
      match host r with
      | EmptyString => Throw invalid
      | h => Ok h
      end
  | None => Throw invalid
  end.

End Url.

(** ** The middleware *)

Section Middleware.

Context {Store : Type} `{IStorage Store}.

(** [new URL(source).hostname], which throws on a string that is not an
    absolute URL. *)
Variable URL_hostname : string -> result string.

Definition with_res (w : World Store) (r : Response) : World Store :=
  {| req := req w; res := r; storage := storage w;
     calls := calls w; logged := logged w |}.

Definition with_req (w : World Store) (r : Request) : World Store :=
  {| req := r; res := res w; storage := storage w;
     calls := calls w; logged := logged w |}.

(** Modelled from the spec: [log(message, "middleware")] of the vite
    module, which is not among the sources; the message is appended to the
    log. *)
Definition log (message : string) (w : World Store) : World Store :=
  {| req := req w; res := res w; storage := storage w;
     calls := calls w; logged := logged w ++ [message] |}.

Definition called (c : StorageCall) (w : World Store) : World Store :=
  {| req := req w; res := res w; storage := storage w;
     calls := calls w ++ [c]; logged := logged w |}.

(** The object literal built inside the overridden [res.end]. *)
Definition usage_of (apiKey : ApiKey) (w : World Store) : InsertApiUsage :=
  {| apiKeyId := apiKeys_id apiKey;
     endpoint := req_originalUrl (req w);
     statusCode := Js.toString (res_statusCode (res w));
     requestPayload :=
       if String.eqb (req_method (req w)) "GET" then JsNull
       else req_body (req w) |}.

(** [storage.recordApiUsage(usage).catch(err => log(...))]: the insert is
    issued at once; a rejection is only logged. *)
Definition fire_recordApiUsage (usage : InsertApiUsage) (w : World Store)
  : World Store :=
  let w1 := called (CallRecordApiUsage usage) w in
  let (s, r) := storage_recordApiUsage usage (storage w1) in
  let w2 := {| req := req w1; res := res w1; storage := s;
               calls := calls w1; logged := logged w1 |} in
  match r with
  | Ok _ => w2
  | Throw err => log ("Failed to record API usage: " ++ err) w2
  end.

(** A call [res.end(chunk, encoding, callback)]: the function found in
    [res.end] at the time of the call runs.  The closure of [trackApiUsage]
    puts [originalEnd] back, records, and calls [res.end] again. *)
Fixpoint end_steps (fuel : nat) (w : World Store) : option (World Store) :=
  match fuel with
  | O => None
  | S fuel' =>
      match res_end (res w) with
      | nativeEnd => Some (with_res w (finish (res w)))
      | trackedEnd apiKey originalEnd =>
          let w1 := with_res w (with_end (res w) originalEnd) in
          let w2 := fire_recordApiUsage (usage_of apiKey w1) w1 in
          end_steps fuel' w2
      end
  end.

Definition res_end_call (w : World Store) : option (World Store) :=
  end_steps (S (wrappers (res_end (res w)))) w.

(** [res.status(code).json(body)] *)
Definition res_status_json (code : Z) (body : ErrorBody) (w : World Store)
  : option (World Store) :=
  let w1 := with_res w (with_status (res w) code) in
  let w2 := with_res w1 (with_sent (res w1) body) in
  res_end_call w2.

Definition answered (o : option (World Store)) : option (World Store * Signal) :=
  match o with
  | Some w => Some (w, Done)
  | None => None
  end.

(** *** validateApiKey *)

(** [!authHeader || !authHeader.startsWith("Bearer ")] *)
Definition rejected_header (authHeader : option string) : bool :=
  match authHeader with
  | None => true
  | Some h => negb (Js.truthy authHeader) || negb (Js.startsWith h "Bearer ")
  end.

Definition validateApiKey (w : World Store) : option (World Store * Signal) :=
  let authHeader := authorization (req_headers (req w)) in
  if rejected_header authHeader then
    answered (res_status_json 401
      {| error := "Authorization header missing or invalid" |} w)
  else
    let apiKey := Js.substring 7 (Js.show authHeader) in
    let w1 := called (CallValidateApiKey apiKey) w in
    match storage_validateApiKey apiKey (storage w1) with
    | Ok validatedKey =>
        match validatedKey with
        | None =>
            answered (res_status_json 403
              {| error := "Invalid or inactive API key" |} w1)
        | Some k => Some (with_req w1 (with_apiKey (req w1) k), Next)
        end
    | Throw err =>
        let w2 := log ("API key validation error: " ++ err) w1 in
        answered (res_status_json 500
          {| error := "Error validating API key" |} w2)
    end.

(** *** trackApiUsage *)

Definition trackApiUsage (w : World Store) : option (World Store * Signal) :=
  match req_apiKey (req w) with
  | None => Some (w, Next)
  | Some apiKey =>
      let originalEnd := res_end (res w) in
      let w1 := with_res w (with_end (res w) (trackedEnd apiKey originalEnd)) in
      Some (w1, Next)
  end.

(** *** verifyDomain *)

(** The callback of [integrations.some]. *)
Definition domain_allows (hostname : string) (integration : AgentIntegration)
  : bool :=
  String.eqb (domain integration) hostname
  || (Js.startsWith (domain integration) "*."
      && Js.endsWith hostname (Js.substring 1 (domain integration))).

(** [req.path.startsWith("/api/admin") || req.path === "/api/v1/keys/verify"] *)
Definition skips_verification (path : string) : bool :=
  Js.startsWith path "/api/admin" || String.eqb path "/api/v1/keys/verify".

(** The value of [domainMatch] after the [if (source)] block, or the error
    thrown inside it. *)
Definition domainMatch_of (source : option string)
  (integrations : list AgentIntegration) : result bool :=
  if Js.truthy source then
    match URL_hostname (Js.show source) with
    | Ok hostname => Ok (List.existsb (domain_allows hostname) integrations)
    | Throw err => Throw err
    end
  else Ok false.

Definition verifyDomain_catch (err : string) (w : World Store)
  : option (World Store * Signal) :=
  let w1 := log ("Domain verification error: " ++ err) w in
  answered (res_status_json 500 {| error := "Error verifying domain" |} w1).

Definition verifyDomain (w : World Store) : option (World Store * Signal) :=
  match req_apiKey (req w) with
  | None => Some (w, Next)
  | Some apiKey =>
      let origin := origin (req_headers (req w)) in
      let referer := referer (req_headers (req w)) in
      if skips_verification (req_path (req w)) then Some (w, Next)
      else
        let w1 := called (CallGetIntegrationsByApiKeyId (apiKeys_id apiKey)) w in
        match storage_getIntegrationsByApiKeyId (apiKeys_id apiKey) (storage w1)
        with
        | Ok integrations =>
            if (List.length integrations =? 0)%nat then
              answered (res_status_json 403
                {| error := "No integrations configured for this API key" |} w1)
            else
              let source := Js.or origin referer in
              match domainMatch_of source integrations with
              | Ok domainMatch =>
                  if negb domainMatch then
                    let w2 :=
                      log ("Domain verification failed: " ++ Js.show source) w1 in
                    answered (res_status_json 403
                      {| error :=
                           "This domain is not authorized to use this API key" |}
                      w2)
                  else Some (w1, Next)
              | Throw err => verifyDomain_catch err w1
              end
        | Throw err => verifyDomain_catch err w1
        end
  end.

(** *** The chain and the route handler *)

(** What a route handler does to the response. *)
Inductive Action :=
| SetStatus (code : Z)
| EndResponse.

Definition act (a : Action) (w : World Store) : option (World Store) :=
  match a with
  | SetStatus code => Some (with_res w (with_status (res w) code))
  | EndResponse => res_end_call w
  end.

Fixpoint handle (handler : list Action) (w : World Store) : option (World Store) :=
  match handler with
  | [] => Some w
  | a :: rest =>
      match act a w with
      | Some w1 => handle rest w1
      | None => None
      end
  end.

(** The part of the chain behind [validateApiKey]:
    [trackApiUsage], [verifyDomain], then the handler. *)
Definition after_validation (handler : list Action) (w : World Store)
  : option (World Store) :=
  match trackApiUsage w with
  | Some (w1, Next) =>
      match verifyDomain w1 with
      | Some (w2, Next) => handle handler w2
      | Some (w2, Done) => Some w2
      | None => None
      end
  | Some (w1, Done) => Some w1
  | None => None
  end.

(** [validateApiKey, trackApiUsage, verifyDomain, handler] *)
Definition serve (handler : list Action) (w : World Store) : option (World Store) :=
  match validateApiKey w with
  | Some (w1, Next) => after_validation handler w1
  | Some (w1, Done) => Some w1
  | None => None
  end.

End Middleware.

(** A request as it arrives: nothing written, [res.end] untouched. *)
Definition fresh_response : Response :=
  {| res_statusCode := 200; res_end := nativeEnd;
     res_sent := None; res_finished := O |}.

Definition arrives {Store : Type} (r : Request) (s : Store) : World Store :=
  {| req := r; res := fresh_response; storage := s;
     calls := []; logged := [] |}.

(** ** Sample data *)

Definition sample_posts : Tables :=
  {| portfolioItems := [];
     blogPosts :=
       [ {| blogPosts_id := 1; blogPosts_publishDate := 10;
            blogPosts_other := [] |};
         {| blogPosts_id := 2; blogPosts_publishDate := 20;
            blogPosts_other := [] |} ];
     agents := []; apiKeys := []; agentIntegrations := []; apiUsage := [];
     tixaeApiEndpoints := []; tixaeAgentTemplates := [] |}.

Definition sample_keys : Tables :=
  {| portfolioItems := []; blogPosts := []; agents := [];
     apiKeys :=
       [ {| apiKeys_id := 1; apiKeys_key := "k-one"; apiKeys_userId := "u1";
            apiKeys_active := true; apiKeys_lastUsed := Some 5;
            apiKeys_other := [("name", "first")] |};
         {| apiKeys_id := 2; apiKeys_key := "k-two"; apiKeys_userId := "u1";
            apiKeys_active := false; apiKeys_lastUsed := None;
            apiKeys_other := [] |};
         {| apiKeys_id := 3; apiKeys_key := "k-three"; apiKeys_userId := "u2";
            apiKeys_active := true; apiKeys_lastUsed := None;
            apiKeys_other := [] |} ];
     agentIntegrations :=
       [ {| agentIntegrations_id := 1; agentIntegrations_agentId := "a1";
            agentIntegrations_apiKeyId := 1; domain := "example.com";
            agentIntegrations_active := true; agentIntegrations_updatedAt := 0;
            agentIntegrations_other := [] |};
         {| agentIntegrations_id := 2; agentIntegrations_agentId := "a1";
            agentIntegrations_apiKeyId := 1; domain := "*.example.org";
            agentIntegrations_active := true; agentIntegrations_updatedAt := 0;
            agentIntegrations_other := [] |} ];
     apiUsage := [];
     tixaeApiEndpoints := []; tixaeAgentTemplates := [] |}.

Definition sample_db : Database :=
  {| tables := sample_keys; online := true; read_only := false |}.

Definition offline_db : Database :=
  {| tables := sample_keys; online := false; read_only := false |}.

Definition standby_db : Database :=
  {| tables := sample_keys; online := true; read_only := true |}.

Definition sample_request (auth origin referer : option string)
  (path method : string) : Request :=
  {| req_headers :=
       {| authorization := auth; origin := origin; referer := referer |};
     req_path := path; req_originalUrl := path ++ "?page=2";
     req_method := method; req_body := JsJson "{}";
     req_apiKey := None |}.

Definition with_domain (d : string) : AgentIntegration :=
  {| agentIntegrations_id := 9; agentIntegrations_agentId := "a9";
     agentIntegrations_apiKeyId := 9; domain := d;
     agentIntegrations_active := true; agentIntegrations_updatedAt := 0;
     agentIntegrations_other := [] |}.

(** The first key of [sample_keys]. *)
Definition key_one : ApiKey :=
  {| apiKeys_id := 1; apiKeys_key := "k-one"; apiKeys_userId := "u1";
     apiKeys_active := true; apiKeys_lastUsed := Some 5;
     apiKeys_other := [("name", "first")] |}.

(** ** Vocabulary of the statements *)

(** [o] is the first row of [t] that satisfies [P], if there is one, and
    [undefined] if there is none. *)
Definition first_match {R : Type} (P : R -> Prop) (t : list R)
  (o : option R) : Prop :=
  match o with
  | Some r => exists before after,
      t = (before ++ r :: after)%list /\ P r
      /\ forall x, In x before -> ~ P x
  | None => forall x, In x t -> ~ P x
  end.

(** [l] holds the rows of [t] that satisfy [P], all of them, in the order
    of [t]. *)
Inductive selection {R : Type} (P : R -> Prop) : list R -> list R -> Prop :=
| selection_nil : selection P [] []
| selection_keep r t l :
    P r -> selection P t l -> selection P (r :: t) (r :: l)
| selection_skip r t l :
    ~ P r -> selection P t l -> selection P (r :: t) l.

(** A key row after [deactivateApiKey id], next to the row before. *)
Definition deactivated (id : Z) (r r' : ApiKey) : Prop :=
  if apiKeys_id r =? id then
    apiKeys_active r' = false
    /\ apiKeys_id r' = apiKeys_id r /\ apiKeys_key r' = apiKeys_key r
    /\ apiKeys_userId r' = apiKeys_userId r
    /\ apiKeys_lastUsed r' = apiKeys_lastUsed r
    /\ apiKeys_other r' = apiKeys_other r
  else r' = r.

(** [a] may stand before [b] in a list in descending order of [col]. *)
Definition desc {R : Type} (col : R -> Z) (a b : R) : Prop := col b <= col a.

(** The response once the framework's own [end] has run on it. *)
Definition completed (r : Response) : Response :=
  finish (with_end r nativeEnd).

(** The middleware answered [w] itself, with [code] and [body], and did not
    call [next]; it asked storage nothing; on a response whose [end] is
    still the framework's own it made no storage call at all. *)
Definition responds {Store : Type} (code : Z) (body : ErrorBody)
  (w : World Store) (o : option (World Store * Signal)) : Prop :=
  exists w',
    o = Some (w', Done)
    /\ res_statusCode (res w') = code
    /\ res_sent (res w') = Some body
    /\ res_finished (res w') = S (res_finished (res w))
    /\ req w' = req w
    /\ lookups (calls w') = lookups (calls w)
    /\ (res_end (res w) = nativeEnd ->
        calls w' = calls w /\ storage w' = storage w).

(** The middleware answered the request itself, with [code] and [body],
    and did not call [next]. *)
Definition answers {Store : Type} (code : Z) (body : ErrorBody)
  (w : World Store) (o : option (World Store * Signal)) : Prop :=
  exists w',
    o = Some (w', Done)
    /\ res_statusCode (res w') = code
    /\ res_sent (res w') = Some body
    /\ req w' = req w.

(** The request is on one of the two paths that skip the domain check. *)
Definition bypass_path (path : string) : Prop :=
  (exists rest, path = "/api/admin" ++ rest) \/ path = "/api/v1/keys/verify".

(** The header the domain check reads: Origin, or Referer when Origin is
    absent or empty. *)
Definition source_header (h : Headers) : option string :=
  match origin h with
  | Some EmptyString => referer h
  | Some o => Some o
  | None => referer h
  end.

(** A configured domain [d] admits [hostname]: it equals it, or it is a
    wildcard [*.D] and the host name ends with [.D]. *)
Definition domain_matches (d hostname : string) : Prop :=
  d = hostname
  \/ exists D, d = "*." ++ D /\ exists sub, hostname = sub ++ "." ++ D.

(** Some configured domain admits the host name of the source header. *)
Definition allowed (URL_hostname : string -> result string)
  (integrations : list AgentIntegration) (source : option string) : Prop :=
  exists s hostname i,
    source = Some s /\ s <> EmptyString
    /\ URL_hostname s = Ok hostname
    /\ In i integrations /\ domain_matches (domain i) hostname.

(** The source header is there but is not a URL. *)
Definition unparseable (URL_hostname : string -> result string)
  (source : option string) : Prop :=
  exists s err,
    source = Some s /\ s <> EmptyString /\ URL_hostname s = Throw err.

(** Relative to [w0]: the closure of [trackApiUsage] for key [k] sits in
    [res.end] and has not run. *)
Definition untouched {Store : Type} (k : ApiKey) (w0 w : World Store) : Prop :=
  res_end (res w) = trackedEnd k nativeEnd
  /\ res_finished (res w) = res_finished (res w0)
  /\ records (calls w) = records (calls w0)
  /\ storage w = storage w0.

(** Relative to [w0]: the response has been finished, one usage insert has
    been issued, it is the only change to the store, and its rejection, if
    any, is in the log. *)
Definition recorded {Store : Type} `{IStorage Store} (w0 w : World Store)
  : Prop :=
  res_end (res w) = nativeEnd
  /\ (res_finished (res w0) < res_finished (res w))%nat
  /\ exists u,
       records (calls w) = (records (calls w0) ++ [CallRecordApiUsage u])%list
       /\ storage w = fst (storage_recordApiUsage u (storage w0))
       /\ match snd (storage_recordApiUsage u (storage w0)) with
          | Ok _ => True
          | Throw err =>
              In ("Failed to record API usage: " ++ err) (logged w)
          end.

Definition sample_agents : Tables :=
  {| portfolioItems := []; blogPosts :=  [];
     agents :=
       [ {| agents_agentId := "a1"; agents_userId := "u1";
            agents_status := "draft"; agents_updatedAt := 1;
            agents_other := [] |};
         {| agents_agentId := "a2"; agents_userId := "u1";
            agents_status := "live"; agents_updatedAt := 2;
            agents_other := [] |} ];
     apiKeys := []; agentIntegrations := []; apiUsage := [];
     tixaeApiEndpoints := []; tixaeAgentTemplates := [] |}.

(** The same world over another store. *)
Definition with_storage {Store : Type} (w : World Store) (s : Store)
  : World Store :=
  {| req := req w; res := res w; storage := s;
     calls := calls w; logged := logged w |}.

(** The same database with other tables. *)
Definition with_tables (d : Database) (t : Tables) : Database :=
  {| tables := t; online := online d; read_only := read_only d |}.

(** The usage record of a request answered with [code] for key [k]. *)
Definition usage_with_status {Store : Type} (k : ApiKey) (code : Z)
  (w : World Store) : InsertApiUsage :=
  {| apiKeyId := apiKeys_id k;
     endpoint := req_originalUrl (req w);
     statusCode := Js.toString code;
     requestPayload :=
       if String.eqb (req_method (req w)) "GET" then JsNull
       else req_body (req w) |}.

(** * Properties *)

(** ** Strings *)

Lemma startsWith_iff (s p : string) :
  Js.startsWith s p = true <-> exists r, s = p ++ r.
Proof.
  unfold Js.startsWith. revert s.
  induction p as [|c p IH]; intros s; simpl.
  - split; [intros _; now exists s | now destruct s].
  - destruct s as [|d s].
    + split; [discriminate | intros [r Hr]; discriminate].
    + simpl. destruct (Ascii.ascii_dec c d) as [->|Hcd].
      * rewrite IH. split; intros [r Hr].
        -- exists r. now rewrite Hr.
        -- exists r. now inversion Hr.
      * split; [discriminate | intros [r Hr]; inversion Hr; congruence].
Qed.

Lemma length_append (a b : string) :
  String.length (a ++ b) = (String.length a + String.length b)%nat.
Proof. induction a as [|c a IH]; simpl; [reflexivity | now rewrite IH]. Qed.

Lemma substring_append (a b : string) :
  Js.substring (String.length a) (a ++ b) = b.
Proof. induction a as [|c a IH]; simpl; [now destruct b | exact IH]. Qed.

Lemma substring_split (n : nat) (s : string) :
  exists x, s = x ++ Js.substring n s.
Proof.
  revert s. induction n as [|n IH]; intros s.
  - exists EmptyString. now destruct s.
  - destruct s as [|c s]; simpl.
    + now exists EmptyString.
    + destruct (IH s) as [x Hx]. exists (String c x). simpl. now rewrite <- Hx.
Qed.

Lemma endsWith_iff (s p : string) :
  Js.endsWith s p = true <-> exists x, s = x ++ p.
Proof.
  unfold Js.endsWith. rewrite andb_true_iff, Nat.leb_le, String.eqb_eq.
  split.
  - intros [_ Hsub].
    destruct (substring_split (String.length s - String.length p) s) as [x Hx].
    exists x. now rewrite Hsub in Hx.
  - intros [x ->]. rewrite length_append. split; [lia|].
    replace (String.length x + String.length p - String.length p)%nat
      with (String.length x) by lia.
    apply substring_append.
Qed.

Lemma truthy_iff (v : option string) :
  Js.truthy v = true <-> exists s, v = Some s /\ s <> EmptyString.
Proof.
  destruct v as [[|c s]|]; simpl; split; try discriminate.
  - intros [s [Hs Hne]]. inversion Hs. congruence.
  - intros _. eexists. split; [reflexivity | discriminate].
  - intros _. reflexivity.
  - intros [s [Hs _]]. discriminate.
Qed.

(** ** The query builder *)

Section QueryFacts.
Context {R : Type}.

Lemma eq_iff {T : Type} `{Query.Column T} (col : R -> T) (v : T) (r : R) :
  Query.eq col v r = true <-> col r = v.
Proof. unfold Query.eq. apply Query.same_iff. Qed.

Lemma first_where (cond : R -> bool) (P : R -> Prop) (t : list R) :
  (forall r, cond r = true <-> P r) ->
  first_match P t (Query.first (Query.where_ cond (Query.from t))).
Proof.
  intros HP. unfold Query.from, Query.where_.
  assert (Hf : forall r, cond r = false -> ~ P r).
  { intros r Hr Hp. apply HP in Hp. congruence. }
  induction t as [|a t IH]; simpl.
  - intros x [].
  - destruct (cond a) eqn:Ha; simpl.
    + exists [], t. repeat split; [now apply HP | intros x []].
    + destruct (Query.first (filter cond t)) as [r|]; simpl in *.
      * destruct IH as (before & after & -> & Hr & Hb).
        exists (a :: before), after. repeat split; [exact Hr|].
        intros x [<-|Hx]; [now apply Hf | now apply Hb].
      * intros x [<-|Hx]; [now apply Hf | now apply IH].
Qed.

Lemma where_selection (cond : R -> bool) (P : R -> Prop) (t : list R) :
  (forall r, cond r = true <-> P r) ->
  selection P t (Query.where_ cond (Query.from t)).
Proof.
  intros HP. unfold Query.from, Query.where_.
  induction t as [|a t IH]; simpl.
  - constructor.
  - destruct (cond a) eqn:Ha.
    + constructor; [now apply HP | exact IH].
    + apply selection_skip; [|exact IH].
      intros Hp. apply HP in Hp. congruence.
Qed.

Lemma from_selection (t : list R) : selection (fun _ => True) t (Query.from t).
Proof.
  unfold Query.from. induction t; constructor; auto.
Qed.

Lemma first_update_returning (set : R -> R) (cond : R -> bool) (t : list R) :
  Query.first (Query.update_returning set cond t)
  = option_map set (Query.first (Query.where_ cond (Query.from t))).
Proof.
  unfold Query.update_returning, Query.where_, Query.from.
  now destruct (filter cond t).
Qed.

Lemma update_none (set : R -> R) (cond : R -> bool) (t : list R) :
  (forall x, In x t -> cond x = false) -> Query.update set cond t = t.
Proof.
  unfold Query.update. induction t as [|a t IH]; simpl; intros Hno.
  - reflexivity.
  - rewrite (Hno a (or_introl eq_refl)). f_equal. apply IH.
    intros x Hx. apply Hno. now right.
Qed.

Lemma place_perm (col : R -> Z) (r : R) (rows : list R) :
  Permutation (r :: rows) (Query.place col r rows).
Proof.
  induction rows as [|x rows IH]; simpl.
  - apply Permutation_refl.
  - destruct (col x <=? col r).
    + apply Permutation_refl.
    + eapply perm_trans; [apply perm_swap|]. now apply perm_skip.
Qed.

Lemma orderBy_desc_perm (col : R -> Z) (rows : list R) :
  Permutation rows (Query.orderBy_desc col rows).
Proof.
  unfold Query.orderBy_desc. induction rows as [|r rows IH]; simpl.
  - constructor.
  - eapply perm_trans; [apply perm_skip, IH | apply place_perm].
Qed.

Lemma place_sorted (col : R -> Z) (r : R) (rows : list R) :
  Sorted (desc col) rows -> Sorted (desc col) (Query.place col r rows).
Proof.
  induction rows as [|x rows IH]; simpl; intros Hs.
  - repeat constructor.
  - destruct (col x <=? col r) eqn:Hc.
    + constructor; [exact Hs|]. constructor. unfold desc. lia.
    + inversion Hs as [|? ? Hs' Hhd]; subst.
      constructor; [now apply IH|].
      destruct rows as [|y rows]; simpl.
      * constructor. unfold desc. lia.
      * destruct (col y <=? col r); constructor; unfold desc; try lia.
        now inversion Hhd.
Qed.

Lemma orderBy_desc_sorted (col : R -> Z) (rows : list R) :
  Sorted (desc col) (Query.orderBy_desc col rows).
Proof.
  unfold Query.orderBy_desc. induction rows as [|r rows IH]; simpl.
  - constructor.
  - now apply place_sorted.
Qed.

End QueryFacts.

(** ** The storage adapter *)

Example getBlogPosts_sample :
  map blogPosts_id (PgStorage.getBlogPosts sample_posts) = [2; 1].
Proof. reflexivity. Qed.

(** C9, as stated, fails: on a table of two posts stored in ascending order
    of [publishDate], [getBlogPosts] returns them in the opposite order,
    which no filter of the table in the store's order produces. *)
Lemma getBlogPosts_reorders :
  ~ exists P : BlogPost -> Prop,
      selection P (blogPosts sample_posts) (PgStorage.getBlogPosts sample_posts).
Proof.
  intros [P Hsel]. cbv in Hsel.
  inversion Hsel as [|r t l Hp Hrest|r t l Hn Hrest]; subst.
  inversion Hrest as [|r t l Hp' Hrest'|r t l Hn' Hrest']; subst.
  - inversion Hrest'.
  - inversion Hrest'.
Qed.

(** C9, amended: every single-row getter returns the first row that
    satisfies its equality filter, or [undefined] when there is none; every
    update returns the written form of the first row that satisfies its
    filter; every list getter returns the rows that satisfy at most one
    equality filter, in the store's order; except [getBlogPosts], which
    returns all posts in descending order of [publishDate]. *)
Theorem adapter_queries (db : Tables) :
  (forall id, first_match (fun r => portfolioItems_id r = id)
     (portfolioItems db) (PgStorage.getPortfolioItem id db))
  /\ (forall id, first_match (fun r => blogPosts_id r = id)
        (blogPosts db) (PgStorage.getBlogPost id db))
  /\ (forall agentId, first_match (fun r => agents_agentId r = agentId)
        (agents db) (PgStorage.getAgentById agentId db))
  /\ (forall id, first_match (fun r => apiKeys_id r = id)
        (apiKeys db) (PgStorage.getApiKeyById id db))
  /\ (forall key,
        first_match (fun r => apiKeys_key r = key /\ apiKeys_active r = true)
          (apiKeys db) (PgStorage.validateApiKey key db))
  /\ (forall id, first_match (fun r => tixaeApiEndpoints_id r = id)
        (tixaeApiEndpoints db) (PgStorage.getTixaeApiEndpoint id db))
  /\ (forall name, first_match (fun r => tixaeApiEndpoints_name r = name)
        (tixaeApiEndpoints db) (PgStorage.getTixaeApiEndpointByName name db))
  /\ (forall id, first_match (fun r => tixaeAgentTemplates_id r = id)
        (tixaeAgentTemplates db) (PgStorage.getTixaeAgentTemplate id db))
  /\ (forall name, first_match (fun r => tixaeAgentTemplates_name r = name)
        (tixaeAgentTemplates db)
        (PgStorage.getTixaeAgentTemplateByName name db))
  /\ (forall agentId status now, exists o,
        first_match (fun r => agents_agentId r = agentId) (agents db) o
        /\ snd (PgStorage.updateAgentStatus agentId status now db)
           = option_map (PgStorage.set_status status now) o)
  /\ (forall id, exists o,
        first_match (fun r => apiKeys_id r = id) (apiKeys db) o
        /\ snd (PgStorage.deactivateApiKey id db)
           = option_map (PgStorage.set_active false) o)
  /\ (forall id now, exists o,
        first_match (fun r => agentIntegrations_id r = id)
          (agentIntegrations db) o
        /\ snd (PgStorage.deactivateIntegration id now db)
           = option_map (PgStorage.set_inactive now) o)
  /\ selection (fun _ => True) (portfolioItems db)
       (PgStorage.getPortfolioItems db)
  /\ (forall userId, selection (fun r => agents_userId r = userId)
        (agents db) (PgStorage.getAgentsByUserId userId db))
  /\ (forall userId, selection (fun r => apiKeys_userId r = userId)
        (apiKeys db) (PgStorage.getApiKeysByUserId userId db))
  /\ (forall agentId,
        selection (fun r => agentIntegrations_agentId r = agentId)
          (agentIntegrations db) (PgStorage.getIntegrationsByAgentId agentId db))
  /\ (forall apiKeyId,
        selection (fun r => agentIntegrations_apiKeyId r = apiKeyId)
          (agentIntegrations db)
          (PgStorage.getIntegrationsByApiKeyId apiKeyId db))
  /\ (forall keyId,
        selection (fun r => apiKeyId (apiUsage_values r) = keyId)
          (apiUsage db) (PgStorage.getApiUsageByKeyId keyId db))
  /\ selection (fun _ => True) (tixaeApiEndpoints db)
       (PgStorage.getTixaeApiEndpoints db)
  /\ selection (fun _ => True) (tixaeAgentTemplates db)
       (PgStorage.getTixaeAgentTemplates db)
  /\ Permutation (blogPosts db) (PgStorage.getBlogPosts db)
  /\ Sorted (desc blogPosts_publishDate) (PgStorage.getBlogPosts db).
Proof.
  repeat match goal with |- _ /\ _ => split end;
    try (intros; apply first_where; intros; apply eq_iff);
    try (intros; apply where_selection; intros; apply eq_iff);
    try apply from_selection.
  - intros key. apply first_where. intros r. unfold Query.and.
    now rewrite andb_true_iff, !eq_iff.
  - intros agentId status now. eexists. split.
    + apply first_where. intros r. apply eq_iff.
    + apply first_update_returning.
  - intros id. eexists. split.
    + apply first_where. intros r. apply eq_iff.
    + apply first_update_returning.
  - intros id now. eexists. split.
    + apply first_where. intros r. apply eq_iff.
    + apply first_update_returning.
  - intros keyId. unfold PgStorage.getApiUsageByKeyId.
    apply where_selection. intros r.
    apply (eq_iff (fun r => apiKeyId (apiUsage_values r))).
  - apply orderBy_desc_perm.
  - apply orderBy_desc_sorted.
Qed.

Lemma update_deactivated (id : Z) (t : list ApiKey) :
  Forall2 (deactivated id) t
    (Query.update (PgStorage.set_active false) (Query.eq apiKeys_id id) t).
Proof.
  unfold Query.update. induction t as [|r t IH]; simpl; constructor; auto.
  unfold deactivated, Query.eq. simpl.
  destruct (apiKeys_id r =? id); simpl; auto 10.
Qed.

Lemma with_apiKeys_same (db : Tables) :
  PgStorage.with_apiKeys db (apiKeys db) = db.
Proof. now destruct db. Qed.

Example deactivateApiKey_sample :
  map apiKeys_active (apiKeys (fst (PgStorage.deactivateApiKey 3 sample_keys)))
  = [true; false; false]
  /\ option_map apiKeys_key (snd (PgStorage.deactivateApiKey 3 sample_keys))
     = Some "k-three"
  /\ PgStorage.deactivateApiKey 7 sample_keys = (sample_keys, None).
Proof. repeat split. Qed.

(** C10: [deactivateApiKey id] sets [active] to false in the key row whose
    id is [id] and changes no other column of it, no other row and no other
    table; it returns that row as written, or [undefined], with the
    database unchanged, when no key has that id. *)
Theorem deactivateApiKey_frame (id : Z) (db : Tables) :
  let db' := fst (PgStorage.deactivateApiKey id db) in
  let result := snd (PgStorage.deactivateApiKey id db) in
  Forall2 (deactivated id) (apiKeys db) (apiKeys db')
  /\ portfolioItems db' = portfolioItems db
  /\ blogPosts db' = blogPosts db
  /\ agents db' = agents db
  /\ agentIntegrations db' = agentIntegrations db
  /\ apiUsage db' = apiUsage db
  /\ tixaeApiEndpoints db' = tixaeApiEndpoints db
  /\ tixaeAgentTemplates db' = tixaeAgentTemplates db
  /\ match result with
     | Some r' =>
         exists r,
           first_match (fun x => apiKeys_id x = id) (apiKeys db) (Some r)
           /\ deactivated id r r' /\ In r' (apiKeys db')
     | None =>
         (forall r, In r (apiKeys db) -> apiKeys_id r <> id) /\ db' = db
     end.
Proof.
  cbn zeta. unfold PgStorage.deactivateApiKey. cbn [fst snd].
  split; [apply update_deactivated|].
  repeat (split; [reflexivity|]).
  rewrite first_update_returning.
  pose proof (first_where (Query.eq apiKeys_id id)
                (fun x => apiKeys_id x = id) (apiKeys db)
                (eq_iff apiKeys_id id)) as Hfirst.
  destruct (Query.first (Query.where_ (Query.eq apiKeys_id id)
                           (Query.from (apiKeys db)))) as [r|]; simpl.
  - exists r. split; [exact Hfirst|].
    destruct Hfirst as (before & after & Ht & Hr & _).
    split.
    + unfold deactivated. rewrite Hr, Z.eqb_refl. simpl. auto 10.
    + rewrite Ht. unfold Query.update. rewrite map_app. apply in_or_app.
      right. simpl. left. unfold Query.eq. simpl.
      now rewrite Hr, Z.eqb_refl.
  - split; [exact Hfirst|].
    rewrite update_none; [apply with_apiKeys_same|].
    intros x Hx. apply Hfirst in Hx.
    destruct (Query.eq apiKeys_id id x) eqn:E; [|reflexivity].
    exfalso. apply Hx. revert E. apply eq_iff.
Qed.

(** ** Finishing a response *)

Section EndFacts.
Context {Store : Type} `{IStorage Store}.

Lemma lookups_app (a b : list StorageCall) :
  lookups (a ++ b) = (lookups a ++ lookups b)%list.
Proof. apply filter_app. Qed.

Lemma records_app (a b : list StorageCall) :
  records (a ++ b) = (records a ++ records b)%list.
Proof. apply filter_app. Qed.

Lemma fire_req (u : InsertApiUsage) (w : World Store) :
  req (fire_recordApiUsage u w) = req w.
Proof.
  unfold fire_recordApiUsage. simpl.
  destruct (storage_recordApiUsage u (storage w)) as [s [a|e]]; reflexivity.
Qed.

Lemma fire_res (u : InsertApiUsage) (w : World Store) :
  res (fire_recordApiUsage u w) = res w.
Proof.
  unfold fire_recordApiUsage. simpl.
  destruct (storage_recordApiUsage u (storage w)) as [s [a|e]]; reflexivity.
Qed.

Lemma fire_calls (u : InsertApiUsage) (w : World Store) :
  calls (fire_recordApiUsage u w) = (calls w ++ [CallRecordApiUsage u])%list.
Proof.
  unfold fire_recordApiUsage. simpl.
  destruct (storage_recordApiUsage u (storage w)) as [s [a|e]]; reflexivity.
Qed.

Lemma fire_storage (u : InsertApiUsage) (w : World Store) :
  storage (fire_recordApiUsage u w) = fst (storage_recordApiUsage u (storage w)).
Proof.
  unfold fire_recordApiUsage. simpl.
  destruct (storage_recordApiUsage u (storage w)) as [s [a|e]]; reflexivity.
Qed.

(** A call of [res.end] returns: every closure in [res.end] runs once,
    innermost last, and leaves the framework's own function in place. *)
Lemma end_steps_spec (fuel : nat) :
  forall w : World Store,
    (wrappers (res_end (res w)) < fuel)%nat ->
    exists w',
      end_steps fuel w = Some w'
      /\ req w' = req w
      /\ res w' = completed (res w)
      /\ lookups (calls w') = lookups (calls w)
      /\ length (records (calls w'))
         = (length (records (calls w)) + wrappers (res_end (res w)))%nat.
Proof.
  induction fuel as [|fuel IH]; intros w Hfuel; [lia|].
  simpl. destruct (res_end (res w)) as [|k g] eqn:Hend.
  - eexists. split; [reflexivity|]. simpl.
    repeat split; [|lia].
    unfold completed, with_end, finish. simpl. now rewrite Hend.
  - simpl in Hfuel.
    set (w1 := with_res w (with_end (res w) g)).
    destruct (IH (fire_recordApiUsage (usage_of k w1) w1)) as (w' & Hw' & Hreq & Hres & Hl & Hr).
    { rewrite fire_res. simpl. lia. }
    exists w'. split; [exact Hw'|].
    rewrite fire_req in Hreq. rewrite fire_res in Hres, Hr.
    rewrite fire_calls in Hl, Hr.
    rewrite lookups_app in Hl. rewrite records_app, length_app in Hr.
    simpl in *. rewrite app_nil_r in Hl.
    repeat split; try assumption; lia.
Qed.

(** More fuel than a call of [res.end] needs does not change its result. *)
Lemma end_steps_more (n : nat) :
  forall (m : nat) (w w' : World Store),
    end_steps n w = Some w' -> (n <= m)%nat -> end_steps m w = Some w'.
Proof.
  induction n as [|n IH]; intros m w w' Hrun Hle; [discriminate|].
  destruct m as [|m]; [lia|]. simpl in *.
  destruct (res_end (res w)) as [|k g]; [exact Hrun|].
  apply IH; [exact Hrun | lia].
Qed.

Lemma res_end_call_spec (w : World Store) :
  exists w',
    res_end_call w = Some w'
    /\ req w' = req w
    /\ res w' = completed (res w)
    /\ lookups (calls w') = lookups (calls w)
    /\ length (records (calls w'))
       = (length (records (calls w)) + wrappers (res_end (res w)))%nat.
Proof. apply end_steps_spec. lia. Qed.

Lemma res_end_call_native (w : World Store) :
  res_end (res w) = nativeEnd ->
  res_end_call w = Some (with_res w (finish (res w))).
Proof.
  intros Hn. unfold res_end_call. rewrite Hn. simpl. now rewrite Hn.
Qed.

Lemma res_status_json_responds (code : Z) (body : ErrorBody) (w : World Store) :
  responds code body w (answered (res_status_json code body w)).
Proof.
  unfold res_status_json.
  set (w2 := with_res _ _).
  destruct (res_end_call_spec w2) as (w' & Hw' & Hreq & Hres & Hl & _).
  exists w'. rewrite Hw'. simpl.
  split; [reflexivity|].
  do 3 (split; [rewrite Hres; reflexivity|]).
  do 2 (split; [assumption|]).
  intros Hn. rewrite res_end_call_native in Hw' by exact Hn.
  inversion Hw'. split; reflexivity.
Qed.

End EndFacts.

(** ** validateApiKey *)

Section ValidateFacts.
Context {Store : Type} `{IStorage Store}.

Lemma responds_answers (code : Z) (body : ErrorBody) (w0 w : World Store)
  (o : option (World Store * Signal)) :
  req w0 = req w -> responds code body w0 o -> answers code body w o.
Proof.
  intros Hreq (w' & Ho & Hc & Hb & _ & Hr & _).
  exists w'. repeat split; try assumption. congruence.
Qed.

Lemma rejected_header_bearer (token : string) :
  rejected_header (Some ("Bearer " ++ token)) = false.
Proof. simpl. now destruct token. Qed.

Lemma rejected_header_other (authHeader : option string) :
  (forall token, authHeader <> Some ("Bearer " ++ token)) ->
  rejected_header authHeader = true.
Proof.
  intros Hno. destruct authHeader as [h|]; [|reflexivity].
  unfold rejected_header.
  destruct (Js.startsWith h "Bearer ") eqn:Hs.
  - apply startsWith_iff in Hs. destruct Hs as [token ->].
    now contradiction (Hno token).
  - apply orb_true_r.
Qed.

(** The three ways on from a well-formed header. *)
Lemma validateApiKey_bearer (w : World Store) (token : string) :
  authorization (req_headers (req w)) = Some ("Bearer " ++ token) ->
  validateApiKey w =
  let w1 := called (CallValidateApiKey token) w in
  match storage_validateApiKey token (storage w) with
  | Ok None =>
      answered (res_status_json 403
        {| error := "Invalid or inactive API key" |} w1)
  | Ok (Some k) => Some (with_req w1 (with_apiKey (req w) k), Next)
  | Throw err =>
      answered (res_status_json 500 {| error := "Error validating API key" |}
        (log ("API key validation error: " ++ err) w1))
  end.
Proof.
  intros Hauth. unfold validateApiKey. rewrite Hauth.
  rewrite rejected_header_bearer. reflexivity.
Qed.

End ValidateFacts.

(** C2: when the Authorization header is absent or does not start with
    [Bearer ], [validateApiKey] answers 401 with an [{error}] body, does
    not call [next], and asks storage nothing. *)
Theorem validateApiKey_malformed {Store : Type} `{IStorage Store}
  (w : World Store) :
  (forall token,
     authorization (req_headers (req w)) <> Some ("Bearer " ++ token)) ->
  responds 401 {| error := "Authorization header missing or invalid" |}
    w (validateApiKey w).
Proof.
  intros Hno. unfold validateApiKey.
  rewrite (rejected_header_other _ Hno).
  apply res_status_json_responds.
Qed.

Lemma validateApiKey_malformed_witness :
  let w := arrives (sample_request (Some "bearer k-one") None None
                      "/api/v1/agents" "GET") sample_db in
  (forall token,
     authorization (req_headers (req w)) <> Some ("Bearer " ++ token))
  /\ responds 401 {| error := "Authorization header missing or invalid" |}
       w (validateApiKey w).
Proof.
  cbn zeta.
  assert (Hno : forall token,
    authorization (req_headers (req (arrives
      (sample_request (Some "bearer k-one") None None "/api/v1/agents" "GET")
      sample_db))) <> Some ("Bearer " ++ token)).
  { intros token. simpl. discriminate. }
  split; [exact Hno|].
  exact (validateApiKey_malformed _ Hno).
Defined.

Lemma first_match_found {R : Type} (P : R -> Prop) (t : list R)
  (o : option R) :
  first_match P t o -> (exists r, In r t /\ P r) -> exists r, o = Some r.
Proof.
  intros Hf [r [Hin Hp]]. destruct o as [x|]; [now exists x|].
  now contradiction (Hf r Hin).
Qed.

Lemma first_match_in {R : Type} (P : R -> Prop) (t : list R) (r : R) :
  first_match P t (Some r) -> In r t /\ P r.
Proof.
  intros (before & after & -> & Hp & _). split; [|exact Hp].
  apply in_or_app. right. now left.
Qed.

Lemma validateApiKey_first (key : string) (db : Tables) :
  first_match (fun r => apiKeys_key r = key /\ apiKeys_active r = true)
    (apiKeys db) (PgStorage.validateApiKey key db).
Proof.
  apply first_where. intros r. unfold Query.and.
  now rewrite andb_true_iff, !eq_iff.
Qed.

(** C3: for a well-formed header whose token is the key string of no
    stored key with [active = true], the lookup returns [undefined] and
    [validateApiKey] answers 403 without calling [next] and without
    attaching a key; in general [storage.validateApiKey] returns a row only
    if its key string is the token and its [active] flag is true, and
    [undefined] exactly when the table has no such row. *)
Theorem validateApiKey_unknown (w : World Database) (token : string) :
  authorization (req_headers (req w)) = Some ("Bearer " ++ token) ->
  online (storage w) = true ->
  (forall k, In k (apiKeys (tables (storage w))) ->
             apiKeys_key k = token -> apiKeys_active k = false) ->
  storage_validateApiKey token (storage w) = Ok None
  /\ answers 403 {| error := "Invalid or inactive API key" |}
       w (validateApiKey w)
  /\ forall key db,
       match PgStorage.validateApiKey key db with
       | Some k =>
           In k (apiKeys db) /\ apiKeys_key k = key /\ apiKeys_active k = true
       | None =>
           forall k, In k (apiKeys db) ->
                     ~ (apiKeys_key k = key /\ apiKeys_active k = true)
       end.
Proof.
  intros Hauth Hon Hnone.
  assert (Hlookup : storage_validateApiKey token (storage w) = Ok None).
  { simpl. rewrite Hon. f_equal.
    pose proof (validateApiKey_first token (tables (storage w))) as Hf.
    destruct (PgStorage.validateApiKey token (tables (storage w))) as [k|];
      [|reflexivity].
    apply first_match_in in Hf. destruct Hf as [Hin [Hk Ha]].
    rewrite (Hnone k Hin Hk) in Ha. discriminate. }
  split; [exact Hlookup|]. split.
  - rewrite (validateApiKey_bearer w token Hauth). cbn zeta.
    rewrite Hlookup.
    eapply responds_answers; [|apply res_status_json_responds]. reflexivity.
  - intros key db. pose proof (validateApiKey_first key db) as Hf.
    destruct (PgStorage.validateApiKey key db) as [k|].
    + apply first_match_in in Hf. tauto.
    + exact Hf.
Qed.

Lemma validateApiKey_unknown_witness :
  let w := arrives (sample_request (Some "Bearer k-two") None None
                      "/api/v1/agents" "GET") sample_db in
  storage_validateApiKey "k-two" (storage w) = Ok None
  /\ answers 403 {| error := "Invalid or inactive API key" |}
       w (validateApiKey w).
Proof.
  cbn zeta.
  pose proof (validateApiKey_unknown
    (arrives (sample_request (Some "Bearer k-two") None None
                "/api/v1/agents" "GET") sample_db) "k-two") as Hthm.
  assert (Hrows : forall k,
    In k (apiKeys (tables (storage (arrives
      (sample_request (Some "Bearer k-two") None None "/api/v1/agents" "GET")
      sample_db)))) -> apiKeys_key k = "k-two" -> apiKeys_active k = false).
  { simpl. intros k [<-|[<-|[<-|[]]]]; simpl; intros Hk;
      first [reflexivity | discriminate]. }
  destruct (Hthm eq_refl eq_refl Hrows) as (Hl & Ha & _).
  split; assumption.
Defined.

(** C4: for a well-formed header whose token is the key string of a stored
    key with [active = true], [validateApiKey] attaches such a key row to
    the request and calls [next]; the response is untouched. *)
Theorem validateApiKey_valid (w : World Database) (token : string) :
  authorization (req_headers (req w)) = Some ("Bearer " ++ token) ->
  online (storage w) = true ->
  (exists k, In k (apiKeys (tables (storage w)))
             /\ apiKeys_key k = token /\ apiKeys_active k = true) ->
  exists k w',
    In k (apiKeys (tables (storage w)))
    /\ apiKeys_key k = token /\ apiKeys_active k = true
    /\ validateApiKey w = Some (w', Next)
    /\ req w' = with_apiKey (req w) k
    /\ req_apiKey (req w') = Some k
    /\ res w' = res w
    /\ storage w' = storage w.
Proof.
  intros Hauth Hon Hex.
  pose proof (validateApiKey_first token (tables (storage w))) as Hf.
  destruct (first_match_found _ _ _ Hf) as [k Hk].
  { destruct Hex as (k & Hin & Hkey & Hact). exists k. tauto. }
  rewrite Hk in Hf. apply first_match_in in Hf.
  destruct Hf as (Hin & Hkey & Hact).
  exists k, (with_req (called (CallValidateApiKey token) w)
               (with_apiKey (req w) k)).
  repeat split; try assumption.
  rewrite (validateApiKey_bearer w token Hauth). cbn zeta.
  simpl storage_validateApiKey. rewrite Hon, Hk. reflexivity.
Qed.

Lemma validateApiKey_valid_witness :
  let w := arrives (sample_request (Some "Bearer k-one") None None
                      "/api/v1/agents" "GET") sample_db in
  exists w',
    validateApiKey w = Some (w', Next)
    /\ req_apiKey (req w') = Some key_one
    /\ res w' = res w.
Proof.
  cbn zeta.
  destruct (validateApiKey_valid
    (arrives (sample_request (Some "Bearer k-one") None None
                "/api/v1/agents" "GET") sample_db) "k-one" eq_refl eq_refl)
    as (k & w' & Hin & Hkey & Hact & Hrun & Hreq & Hatt & Hres & _).
  { exists key_one. simpl. auto. }
  exists w'. repeat split; try assumption.
  rewrite Hatt. f_equal.
  simpl in Hin. destruct Hin as [<-|[<-|[<-|[]]]]; simpl in Hkey;
    first [reflexivity | discriminate].
Defined.

(** ** verifyDomain *)

Lemma skips_verification_iff (path : string) :
  skips_verification path = true <-> bypass_path path.
Proof.
  unfold skips_verification, bypass_path.
  now rewrite orb_true_iff, startsWith_iff, String.eqb_eq.
Qed.

Lemma domain_allows_iff (hostname : string) (i : AgentIntegration) :
  domain_allows hostname i = true <-> domain_matches (domain i) hostname.
Proof.
  unfold domain_allows, domain_matches.
  rewrite orb_true_iff, andb_true_iff, String.eqb_eq, startsWith_iff,
    endsWith_iff.
  split; (intros [Heq|Hwild]; [now left | right]).
  - destruct Hwild as [[D HD] [sub Hsub]]. exists D. split; [exact HD|].
    exists sub. rewrite Hsub, HD. reflexivity.
  - destruct Hwild as [D [HD [sub Hsub]]]. split; [now exists D|].
    exists sub. rewrite Hsub, HD. reflexivity.
Qed.

Lemma source_header_or (h : Headers) :
  source_header h = Js.or (origin h) (referer h).
Proof.
  unfold source_header, Js.or. now destruct (origin h) as [[|c o]|].
Qed.

Example wildcard_sample :
  domain_allows "sub.example.com" (with_domain "*.example.com") = true
  /\ domain_allows "example.com" (with_domain "*.example.com") = false
  /\ domain_allows "evilexample.com" (with_domain "*.example.com") = false
  /\ domain_allows "example.com" (with_domain "example.com") = true.
Proof. repeat split. Qed.

Section VerifyFacts.
Context {Store : Type} `{IStorage Store}.
Variable URL_hostname : string -> result string.

Lemma domainMatch_of_true (source : option string)
  (integrations : list AgentIntegration) :
  domainMatch_of URL_hostname source integrations = Ok true
  <-> allowed URL_hostname integrations source.
Proof.
  unfold domainMatch_of, allowed. split.
  - destruct (Js.truthy source) eqn:Ht; [|discriminate].
    apply truthy_iff in Ht. destruct Ht as (s & -> & Hs). simpl.
    destruct (URL_hostname s) as [hostname|err] eqn:Hu; [|discriminate].
    intros Hm. injection Hm as Hm. apply existsb_exists in Hm.
    destruct Hm as (i & Hin & Hi). exists s, hostname, i.
    repeat split; try assumption. now apply domain_allows_iff.
  - intros (s & hostname & i & -> & Hs & Hu & Hin & Hm).
    replace (Js.truthy (Some s)) with true
      by (symmetry; apply truthy_iff; now exists s).
    simpl. rewrite Hu. f_equal. apply existsb_exists. exists i.
    split; [exact Hin | now apply domain_allows_iff].
Qed.

Lemma domainMatch_of_throw (source : option string)
  (integrations : list AgentIntegration) (err : string) :
  domainMatch_of URL_hostname source integrations = Throw err
  <-> exists s, source = Some s /\ s <> EmptyString
                /\ URL_hostname s = Throw err.
Proof.
  unfold domainMatch_of. split.
  - destruct (Js.truthy source) eqn:Ht; [|discriminate].
    apply truthy_iff in Ht. destruct Ht as (s & -> & Hs). simpl.
    destruct (URL_hostname s) as [hostname|e] eqn:Hu; [discriminate|].
    intros He. injection He as ->. now exists s.
  - intros (s & -> & Hs & Hu).
    replace (Js.truthy (Some s)) with true
      by (symmetry; apply truthy_iff; now exists s).
    simpl. now rewrite Hu.
Qed.

(** The domain check proper, once the integrations are there. *)
Lemma verifyDomain_checked (w : World Store) (k : ApiKey)
  (integrations : list AgentIntegration) :
  req_apiKey (req w) = Some k ->
  skips_verification (req_path (req w)) = false ->
  storage_getIntegrationsByApiKeyId (apiKeys_id k) (storage w)
  = Ok integrations ->
  verifyDomain URL_hostname w =
  let w1 := called (CallGetIntegrationsByApiKeyId (apiKeys_id k)) w in
  let source := source_header (req_headers (req w)) in
  match integrations with
  | [] =>
      answered (res_status_json 403
        {| error := "No integrations configured for this API key" |} w1)
  | _ :: _ =>
      match domainMatch_of URL_hostname source integrations with
      | Ok true => Some (w1, Next)
      | Ok false =>
          answered (res_status_json 403
            {| error := "This domain is not authorized to use this API key" |}
            (log ("Domain verification failed: " ++ Js.show source) w1))
      | Throw err => verifyDomain_catch err w1
      end
  end.
Proof.
  intros Hk Hskip Hint. unfold verifyDomain.
  rewrite Hk, Hskip. simpl storage. rewrite Hint.
  rewrite source_header_or. cbn zeta.
  destruct integrations as [|i rest]; [reflexivity|].
  simpl length. cbn [Nat.eqb].
  destruct (domainMatch_of URL_hostname _ (i :: rest)) as [[|]|err];
    reflexivity.
Qed.

End VerifyFacts.

Section Outcomes.
Context {Store : Type} `{IStorage Store}.

Lemma answered_json_inv (code : Z) (body : ErrorBody) (w0 w' : World Store)
  (s : Signal) :
  answered (res_status_json code body w0) = Some (w', s) ->
  s = Done /\ res_statusCode (res w') = code
  /\ res_sent (res w') = Some body /\ req w' = req w0.
Proof.
  destruct (res_status_json_responds code body w0)
    as (w'' & Ho & Hc & Hb & _ & Hr & _).
  rewrite Ho. intros Heq. injection Heq as <- <-. auto.
Qed.

Lemma answered_json_answers (code : Z) (body : ErrorBody)
  (w0 w : World Store) :
  req w0 = req w ->
  answers code body w (answered (res_status_json code body w0)).
Proof.
  intros Hreq. eapply responds_answers; [exact Hreq|].
  apply res_status_json_responds.
Qed.

Lemma answered_json_not_next (code : Z) (body : ErrorBody)
  (w0 w' : World Store) :
  answered (res_status_json code body w0) <> Some (w', Next).
Proof.
  intros Heq. apply answered_json_inv in Heq. destruct Heq as [Hs _].
  discriminate.
Qed.

End Outcomes.

(** C5: on a path that starts with [/api/admin] or is
    [/api/v1/keys/verify], [verifyDomain] calls [next] and does nothing else:
    no storage call, no response, whatever the headers, the key and the
    store. *)
Theorem verifyDomain_bypass {Store : Type} `{IStorage Store}
  (URL_hostname : string -> result string) (w : World Store) :
  bypass_path (req_path (req w)) ->
  verifyDomain URL_hostname w = Some (w, Next).
Proof.
  intros Hpath. apply skips_verification_iff in Hpath.
  unfold verifyDomain. rewrite Hpath. now destruct (req_apiKey (req w)).
Qed.

Lemma verifyDomain_bypass_witness :
  let w := arrives
    (with_apiKey (sample_request None (Some "null") None
                    "/api/admin/keys" "POST") key_one) offline_db in
  bypass_path (req_path (req w))
  /\ verifyDomain Url.hostname w = Some (w, Next).
Proof.
  cbn zeta.
  assert (Hpath : bypass_path (req_path (req (arrives
    (with_apiKey (sample_request None (Some "null") None
                    "/api/admin/keys" "POST") key_one) offline_db)))).
  { left. exists "/keys". reflexivity. }
  split; [exact Hpath|].
  exact (verifyDomain_bypass Url.hostname _ Hpath).
Defined.

(** C1, as stated, fails: with the header [Origin: null], which is not a
    URL, and integrations configured, no domain matches and yet the answer
    is 500, not 403. *)
Lemma verifyDomain_null_origin :
  let w := arrives
    (with_apiKey (sample_request None (Some "null") None
                    "/api/v1/agents" "GET") key_one) sample_db in
  ~ bypass_path (req_path (req w))
  /\ length (PgStorage.getIntegrationsByApiKeyId 1 sample_keys) = 2%nat
  /\ ~ allowed Url.hostname (PgStorage.getIntegrationsByApiKeyId 1 sample_keys)
         (source_header (req_headers (req w)))
  /\ answers 500 {| error := "Error verifying domain" |} w
       (verifyDomain Url.hostname w)
  /\ ~ exists msg, answers 403 {| error := msg |} w
         (verifyDomain Url.hostname w).
Proof.
  cbn zeta. split; [|split; [reflexivity|split; [|split]]].
  - intros Hb. apply skips_verification_iff in Hb. discriminate.
  - intros (s & hostname & i & Hs & _ & Hu & _).
    injection Hs as <-. discriminate.
  - eexists. repeat split.
  - intros (msg & w' & Hrun & Hcode & _). vm_compute in Hrun.
    injection Hrun as <-. discriminate.
Qed.

(** C1, amended: for a request off the bypass paths with a key attached
    and the integrations of the key read from storage, [verifyDomain] calls
    [next] if and only if some configured domain equals the host name of the
    Origin header (of the Referer header when Origin is absent or empty) or
    is a wildcard [*.D] and the host name ends with [.D]; so [*.example.com]
    admits [sub.example.com] and neither [example.com] nor
    [evilexample.com].  Otherwise it answers 403 (no match, no source
    header, no integration), except that with integrations configured and a
    source header that is not a URL it answers 500. *)
Theorem verifyDomain_decides {Store : Type} `{IStorage Store}
  (URL_hostname : string -> result string) (w : World Store) (k : ApiKey)
  (integrations : list AgentIntegration) :
  req_apiKey (req w) = Some k ->
  ~ bypass_path (req_path (req w)) ->
  storage_getIntegrationsByApiKeyId (apiKeys_id k) (storage w)
  = Ok integrations ->
  let source := source_header (req_headers (req w)) in
  ((exists w', verifyDomain URL_hostname w = Some (w', Next))
   <-> allowed URL_hostname integrations source)
  /\ (~ allowed URL_hostname integrations source ->
      integrations = [] \/ ~ unparseable URL_hostname source ->
      exists msg, answers 403 {| error := msg |} w
                    (verifyDomain URL_hostname w))
  /\ (integrations <> [] -> unparseable URL_hostname source ->
      answers 500 {| error := "Error verifying domain" |} w
        (verifyDomain URL_hostname w))
  /\ domain_matches "*.example.com" "sub.example.com"
  /\ ~ domain_matches "*.example.com" "example.com"
  /\ ~ domain_matches "*.example.com" "evilexample.com".
Proof.
  intros Hk Hpath Hint source.
  assert (Hskip : skips_verification (req_path (req w)) = false).
  { destruct (skips_verification _) eqn:E; [|reflexivity].
    apply skips_verification_iff in E. contradiction. }
  rewrite (verifyDomain_checked URL_hostname w k integrations Hk Hskip Hint).
  cbn zeta. fold source.
  assert (Hex : ~ domain_matches "*.example.com" "example.com"
                /\ ~ domain_matches "*.example.com" "evilexample.com"
                /\ domain_matches "*.example.com" "sub.example.com").
  { repeat split.
    - intros Hm. apply (domain_allows_iff _ (with_domain _)) in Hm.
      discriminate.
    - intros Hm. apply (domain_allows_iff _ (with_domain _)) in Hm.
      discriminate.
    - now apply (domain_allows_iff _ (with_domain "*.example.com")). }
  destruct Hex as (Hex1 & Hex2 & Hex3).
  destruct integrations as [|i rest].
  - assert (Hno : ~ allowed URL_hostname [] source).
    { intros (s & h & j & _ & _ & _ & [] & _). }
    split; [|split; [|split; [|auto]]].
    + split; [|contradiction].
      intros [w' Hrun]. now apply answered_json_not_next in Hrun.
    + intros _ _. eexists. now apply answered_json_answers.
    + intros Hne. now contradiction Hne.
  - pose proof (domainMatch_of_true URL_hostname source (i :: rest)) as Htrue.
    pose proof (domainMatch_of_throw URL_hostname source (i :: rest)) as Hthrow.
    destruct (domainMatch_of URL_hostname source (i :: rest)) as [[|]|err].
    + assert (Hal : allowed URL_hostname (i :: rest) source)
        by now apply Htrue.
      split; [|split; [|split; [|auto]]].
      * split; [intros _; exact Hal | intros _; now eexists].
      * contradiction.
      * intros _ (s & e & Hs & _ & Hu).
        destruct Hal as (s' & h & j & Hs' & _ & Hu' & _). congruence.
    + assert (Hno : ~ allowed URL_hostname (i :: rest) source).
      { intros Hal. apply Htrue in Hal. discriminate. }
      split; [|split; [|split; [|auto]]].
      * split; [|contradiction].
        intros [w' Hrun]. now apply answered_json_not_next in Hrun.
      * intros _ _. eexists. now apply answered_json_answers.
      * intros _ (s & e & Hs & Hne & Hu).
        assert (Ht : @Ok bool false = Throw e)
          by (apply (Hthrow e); now exists s).
        discriminate.
    + assert (Hno : ~ allowed URL_hostname (i :: rest) source).
      { intros Hal. apply Htrue in Hal. discriminate. }
      assert (Hun : unparseable URL_hostname source).
      { destruct (proj1 (Hthrow err) eq_refl) as (s & Hs & Hne & Hu).
        now exists s, err. }
      unfold verifyDomain_catch.
      split; [|split; [|split; [|auto]]].
      * split; [|contradiction].
        intros [w' Hrun]. now apply answered_json_not_next in Hrun.
      * intros _ [Hnil|Hnu]; [discriminate | contradiction].
      * intros _ _. now apply answered_json_answers.
Qed.

Lemma verifyDomain_decides_witness :
  let w := arrives
    (with_apiKey (sample_request None None (Some "https://shop.example.org/cart")
                    "/api/v1/agents" "GET") key_one) sample_db in
  allowed Url.hostname (PgStorage.getIntegrationsByApiKeyId 1 sample_keys)
    (source_header (req_headers (req w)))
  /\ exists w', verifyDomain Url.hostname w = Some (w', Next).
Proof.
  cbn zeta.
  destruct (verifyDomain_decides Url.hostname
    (arrives (with_apiKey (sample_request None None
                (Some "https://shop.example.org/cart")
                "/api/v1/agents" "GET") key_one) sample_db)
    key_one (PgStorage.getIntegrationsByApiKeyId 1 sample_keys) eq_refl)
    as (Hiff & _).
  - intros Hb. apply skips_verification_iff in Hb. discriminate.
  - reflexivity.
  - assert (Hal : allowed Url.hostname
      (PgStorage.getIntegrationsByApiKeyId 1 sample_keys)
      (Some "https://shop.example.org/cart")).
    { exists "https://shop.example.org/cart", "shop.example.org",
        (nth 1 (PgStorage.getIntegrationsByApiKeyId 1 sample_keys)
           (with_domain "")).
      repeat split; [discriminate | simpl; auto |].
      right. exists "example.org". split; [reflexivity|].
      exists "shop". reflexivity. }
    split; [exact Hal | now apply Hiff].
Defined.

(** ** Failures of storage *)

Section Statuses.
Context {Store : Type} `{IStorage Store}.
Variable URL_hostname : string -> result string.

(** An answer with one of the three statuses and an [{error}] body. *)
Lemma answered_json_status (code : Z) (body : ErrorBody)
  (w0 w' : World Store) (s : Signal) :
  code = 401 \/ code = 403 \/ code = 500 ->
  answered (res_status_json code body w0) = Some (w', s) ->
  (res_statusCode (res w') = 401 \/ res_statusCode (res w') = 403
   \/ res_statusCode (res w') = 500)
  /\ exists msg, res_sent (res w') = Some {| error := msg |}.
Proof.
  intros Hcode Hrun. apply answered_json_inv in Hrun.
  destruct Hrun as (_ & Hc & Hb & _). rewrite Hc. split; [exact Hcode|].
  destruct body as [msg]. now exists msg.
Qed.

Lemma validateApiKey_status (w w' : World Store) :
  validateApiKey w = Some (w', Done) ->
  (res_statusCode (res w') = 401 \/ res_statusCode (res w') = 403
   \/ res_statusCode (res w') = 500)
  /\ exists msg, res_sent (res w') = Some {| error := msg |}.
Proof.
  unfold validateApiKey.
  destruct (rejected_header _);
    [apply answered_json_status; auto|].
  simpl storage.
  destruct (storage_validateApiKey _ _) as [[k|]|err];
    [discriminate | |]; apply answered_json_status; auto.
Qed.

Lemma trackApiUsage_next (w w' : World Store) (s : Signal) :
  trackApiUsage w = Some (w', s) -> s = Next.
Proof.
  unfold trackApiUsage. destruct (req_apiKey (req w)); congruence.
Qed.

Lemma verifyDomain_status (w w' : World Store) :
  verifyDomain URL_hostname w = Some (w', Done) ->
  (res_statusCode (res w') = 401 \/ res_statusCode (res w') = 403
   \/ res_statusCode (res w') = 500)
  /\ exists msg, res_sent (res w') = Some {| error := msg |}.
Proof.
  unfold verifyDomain, verifyDomain_catch.
  destruct (req_apiKey (req w)) as [k|]; [|discriminate].
  destruct (skips_verification _); [discriminate|].
  simpl storage.
  destruct (storage_getIntegrationsByApiKeyId _ _) as [integrations|err];
    [|apply answered_json_status; auto].
  destruct (length integrations =? 0)%nat;
    [apply answered_json_status; auto|].
  destruct (domainMatch_of _ _ _) as [[|]|err]; simpl;
    [discriminate | |]; apply answered_json_status; auto.
Qed.

End Statuses.

(** C8: when the storage call in [validateApiKey] or in [verifyDomain]
    throws, the middleware answers 500 with a fixed [{error}] body and does
    not call [next]; and whenever one of the three middleware functions
    answers a request itself, the status is 401, 403 or 500 and the body is
    an [{error}] object. *)
Theorem storage_failure_500 {Store : Type} `{IStorage Store}
  (URL_hostname : string -> result string) (w : World Store) :
  (forall token err,
     authorization (req_headers (req w)) = Some ("Bearer " ++ token) ->
     storage_validateApiKey token (storage w) = Throw err ->
     answers 500 {| error := "Error validating API key" |} w
       (validateApiKey w))
  /\ (forall k err,
        req_apiKey (req w) = Some k ->
        ~ bypass_path (req_path (req w)) ->
        storage_getIntegrationsByApiKeyId (apiKeys_id k) (storage w)
        = Throw err ->
        answers 500 {| error := "Error verifying domain" |} w
          (verifyDomain URL_hostname w))
  /\ (forall w',
        validateApiKey w = Some (w', Done)
        \/ trackApiUsage w = Some (w', Done)
        \/ verifyDomain URL_hostname w = Some (w', Done) ->
        (res_statusCode (res w') = 401 \/ res_statusCode (res w') = 403
         \/ res_statusCode (res w') = 500)
        /\ exists msg, res_sent (res w') = Some {| error := msg |}).
Proof.
  split; [|split].
  - intros token err Hauth Hthrow.
    rewrite (validateApiKey_bearer w token Hauth). cbn zeta.
    rewrite Hthrow. now apply answered_json_answers.
  - intros k err Hk Hpath Hthrow.
    assert (Hskip : skips_verification (req_path (req w)) = false).
    { destruct (skips_verification _) eqn:E; [|reflexivity].
      apply skips_verification_iff in E. contradiction. }
    unfold verifyDomain. rewrite Hk, Hskip. simpl storage.
    rewrite Hthrow. unfold verifyDomain_catch.
    now apply answered_json_answers.
  - intros w' [Hv|[Ht|Hd]].
    + now apply (validateApiKey_status w).
    + apply trackApiUsage_next in Ht. discriminate.
    + now apply (verifyDomain_status URL_hostname w).
Qed.

Lemma storage_failure_500_witness :
  answers 500 {| error := "Error validating API key" |}
    (arrives (sample_request (Some "Bearer k-one") None None
                "/api/v1/agents" "GET") offline_db)
    (validateApiKey
       (arrives (sample_request (Some "Bearer k-one") None None
                   "/api/v1/agents" "GET") offline_db))
  /\ answers 500 {| error := "Error verifying domain" |}
       (arrives (with_apiKey (sample_request None
                    (Some "https://example.com") None
                    "/api/v1/agents" "GET") key_one) offline_db)
       (verifyDomain Url.hostname
          (arrives (with_apiKey (sample_request None
                       (Some "https://example.com") None
                       "/api/v1/agents" "GET") key_one) offline_db)).
Proof.
  split.
  - apply (proj1 (storage_failure_500 Url.hostname
      (arrives (sample_request (Some "Bearer k-one") None None
                  "/api/v1/agents" "GET") offline_db))
      "k-one" connection_error); reflexivity.
  - apply (proj1 (proj2 (storage_failure_500 Url.hostname
      (arrives (with_apiKey (sample_request None
                   (Some "https://example.com") None
                   "/api/v1/agents" "GET") key_one) offline_db)))
      key_one connection_error); try reflexivity.
    intros Hb. apply skips_verification_iff in Hb. discriminate.
Defined.

(** ** trackApiUsage *)

Section TrackFacts.
Context {Store : Type} `{IStorage Store}.
Variable URL_hostname : string -> result string.

Lemma res_end_call_tracked (w : World Store) (k : ApiKey) :
  res_end (res w) = trackedEnd k nativeEnd ->
  res_end_call w =
  let w1 := with_res w (with_end (res w) nativeEnd) in
  let w2 := fire_recordApiUsage (usage_of k w1) w1 in
  Some (with_res w2 (finish (res w2))).
Proof.
  intros Hend. unfold res_end_call. rewrite Hend. simpl.
  rewrite Hend. now rewrite fire_res.
Qed.

Lemma fire_logged (u : InsertApiUsage) (w : World Store) :
  match snd (storage_recordApiUsage u (storage w)) with
  | Ok _ => True
  | Throw err =>
      In ("Failed to record API usage: " ++ err)
         (logged (fire_recordApiUsage u w))
  end.
Proof.
  unfold fire_recordApiUsage. simpl.
  destruct (storage_recordApiUsage u (storage w)) as [s [a|e]]; simpl;
    [exact I|].
  apply in_or_app. right. now left.
Qed.

Lemma end_untouched (k : ApiKey) (w0 w : World Store) :
  untouched k w0 w ->
  exists w', res_end_call w = Some w' /\ recorded w0 w'.
Proof.
  intros (Hend & Hfin & Hrec & Hsto).
  rewrite (res_end_call_tracked w k Hend). cbn zeta.
  eexists. split; [reflexivity|].
  set (w1 := with_res w (with_end (res w) nativeEnd)).
  split; [|split].
  - simpl. now rewrite fire_res.
  - simpl. rewrite fire_res. simpl. lia.
  - exists (usage_of k w1). simpl.
    rewrite fire_calls, fire_storage, records_app. simpl.
    rewrite <- Hrec, <- Hsto. repeat split.
    pose proof (fire_logged (usage_of k w1) w1) as Hlog. exact Hlog.
Qed.

Lemma end_recorded (w0 w : World Store) :
  recorded w0 w ->
  exists w', res_end_call w = Some w' /\ recorded w0 w'.
Proof.
  intros (Hend & Hfin & u & Hrec & Hsto & Hlog).
  rewrite (res_end_call_native w Hend).
  eexists. split; [reflexivity|].
  split; [exact Hend|]. split; [simpl; lia|].
  exists u. auto.
Qed.

Lemma status_untouched (k : ApiKey) (w0 w : World Store) (code : Z) :
  untouched k w0 w -> untouched k w0 (with_res w (with_status (res w) code)).
Proof. intros H0. exact H0. Qed.

Lemma sent_untouched (k : ApiKey) (w0 w : World Store) (b : ErrorBody) :
  untouched k w0 w -> untouched k w0 (with_res w (with_sent (res w) b)).
Proof. intros H0. exact H0. Qed.

Lemma log_untouched (k : ApiKey) (w0 w : World Store) (m : string) :
  untouched k w0 w -> untouched k w0 (log m w).
Proof. intros H0. exact H0. Qed.

Lemma lookup_untouched (k : ApiKey) (w0 w : World Store) (c : StorageCall) :
  is_record c = false -> untouched k w0 w -> untouched k w0 (called c w).
Proof.
  intros Hc (Hend & Hfin & Hrec & Hsto). repeat split; try assumption.
  simpl. rewrite records_app. simpl. rewrite Hc. now rewrite app_nil_r.
Qed.

Lemma json_untouched (k : ApiKey) (w0 w : World Store) (code : Z)
  (b : ErrorBody) :
  untouched k w0 w ->
  exists w', answered (res_status_json code b w) = Some (w', Done)
             /\ recorded w0 w'.
Proof.
  intros H0. unfold res_status_json.
  destruct (end_untouched k w0
    (with_res (with_res w (with_status (res w) code))
       (with_sent (res (with_res w (with_status (res w) code))) b)))
    as (w' & Hw' & Hr).
  { apply sent_untouched, status_untouched, H0. }
  exists w'. rewrite Hw'. auto.
Qed.

Lemma act_kept (k : ApiKey) (w0 w : World Store) (a : Action) :
  untouched k w0 w \/ recorded w0 w ->
  exists w', act a w = Some w'
    /\ (untouched k w0 w' \/ recorded w0 w')
    /\ (a = EndResponse -> recorded w0 w').
Proof.
  intros Hw. destruct a as [code|]; simpl.
  - eexists. split; [reflexivity|]. split; [|discriminate].
    destruct Hw as [Hu|Hr]; [left; exact Hu | right; exact Hr].
  - destruct Hw as [Hu|Hr].
    + destruct (end_untouched k w0 w Hu) as (w' & Hw' & Hr').
      exists w'. auto.
    + destruct (end_recorded w0 w Hr) as (w' & Hw' & Hr').
      exists w'. auto.
Qed.

Lemma handle_kept (k : ApiKey) (w0 : World Store) (handler : list Action) :
  forall w,
    untouched k w0 w \/ recorded w0 w ->
    exists w', handle handler w = Some w'
      /\ (untouched k w0 w' \/ recorded w0 w').
Proof.
  induction handler as [|a rest IH]; intros w Hw; simpl.
  - now exists w.
  - destruct (act_kept k w0 w a Hw) as (w1 & Hw1 & Hk & _).
    rewrite Hw1. now apply IH.
Qed.

Lemma verifyDomain_kept (k : ApiKey) (w0 w : World Store) :
  untouched k w0 w ->
  exists w' s, verifyDomain URL_hostname w = Some (w', s)
    /\ match s with
       | Next => untouched k w0 w'
       | Done => recorded w0 w'
       end.
Proof.
  intros Hu. unfold verifyDomain, verifyDomain_catch.
  destruct (req_apiKey (req w)) as [k'|]; [|now exists w, Next].
  destruct (skips_verification _); [now exists w, Next|].
  set (w1 := called _ w).
  assert (Hu1 : untouched k w0 w1) by now apply lookup_untouched.
  simpl storage.
  destruct (storage_getIntegrationsByApiKeyId _ _) as [integrations|err].
  - destruct (length integrations =? 0)%nat.
    + destruct (json_untouched k w0 w1 403
        {| error := "No integrations configured for this API key" |} Hu1)
        as (w' & Hw' & Hr).
      now exists w', Done.
    + destruct (domainMatch_of _ _ _) as [[|]|err]; simpl.
      * now exists w1, Next.
      * match goal with
        | |- context [res_status_json ?c ?b ?v] =>
            destruct (json_untouched k w0 v c b) as (w' & Hw' & Hr);
              [now apply log_untouched|]
        end.
        now exists w', Done.
      * match goal with
        | |- context [res_status_json ?c ?b ?v] =>
            destruct (json_untouched k w0 v c b) as (w' & Hw' & Hr);
              [now apply log_untouched|]
        end.
        now exists w', Done.
  - match goal with
    | |- context [res_status_json ?c ?b ?v] =>
        destruct (json_untouched k w0 v c b) as (w' & Hw' & Hr);
          [now apply log_untouched|]
    end.
    now exists w', Done.
Qed.

(** Behind [validateApiKey], on a response not yet touched: the chain
    returns, and either nothing was finished and nothing recorded, or the
    response was finished and one usage insert was issued. *)
Lemma after_validation_kept (k : ApiKey) (w : World Store)
  (handler : list Action) :
  req_apiKey (req w) = Some k ->
  res_end (res w) = nativeEnd ->
  exists w', after_validation URL_hostname handler w = Some w'
    /\ (untouched k w w' \/ recorded w w').
Proof.
  intros Hk Hend. unfold after_validation, trackApiUsage. rewrite Hk.
  set (w1 := with_res w _).
  assert (Hu : untouched k w w1).
  { unfold untouched. simpl. now rewrite Hend. }
  destruct (verifyDomain_kept k w w1 Hu) as (w2 & s & Hv & Hs).
  rewrite Hv. destruct s.
  - now apply (handle_kept k w handler w2); left.
  - exists w2. auto.
Qed.

Lemma validateApiKey_next_inv (w w1 : World Store) :
  validateApiKey w = Some (w1, Next) ->
  exists token k,
    storage_validateApiKey token (storage w) = Ok (Some k)
    /\ w1 = with_req (called (CallValidateApiKey token) w)
               (with_apiKey (req w) k).
Proof.
  unfold validateApiKey.
  destruct (rejected_header _);
    [intros Hrun; now apply answered_json_not_next in Hrun|].
  simpl storage.
  destruct (storage_validateApiKey _ _) as [[k|]|err] eqn:Hl.
  - intros Hrun. injection Hrun as <-. eexists _, k. split; [exact Hl|].
    reflexivity.
  - intros Hrun. now apply answered_json_not_next in Hrun.
  - intros Hrun. now apply answered_json_not_next in Hrun.
Qed.

End TrackFacts.

(** C6, as stated, fails: on a server that refuses writes the request passes
    [validateApiKey], its response is finished once, and no usage row is
    created; the rejected insert is only logged. *)
Lemma usage_lost_on_standby :
  let w := arrives (sample_request (Some "Bearer k-one")
                      (Some "https://example.com") None
                      "/api/v1/agents" "POST") standby_db in
  (exists w1, validateApiKey w = Some (w1, Next)
              /\ req_apiKey (req w1) = Some key_one)
  /\ exists w',
       serve Url.hostname [SetStatus 201; EndResponse] w = Some w'
       /\ res_finished (res w') = 1%nat
       /\ res_statusCode (res w') = 201
       /\ apiUsage (tables (storage w')) = []
       /\ logged w' = ["Failed to record API usage: " ++ read_only_error].
Proof.
  cbn zeta. split.
  - eexists. split; reflexivity.
  - eexists. repeat split.
Qed.

(** C6, amended: for a request that passed [validateApiKey] and whose
    response is finished, however often [res.end] is called, exactly one
    usage insert is issued, never none and never two, because the closure
    puts the original [end] back before it calls [res.end] again; the insert
    creates exactly one usage row unless storage rejects it, and then no row
    is created and the rejection is logged. *)
Theorem usage_recorded_once (URL_hostname : string -> result string)
  (r : Request) (db : Database) (handler : list Action)
  (w1 : World Database) :
  validateApiKey (arrives r db) = Some (w1, Next) ->
  exists w',
    serve URL_hostname handler (arrives r db) = Some w'
    /\ ((0 < res_finished (res w'))%nat ->
        exists u,
          records (calls w') = [CallRecordApiUsage u]
          /\ (read_only db = false ->
              exists row,
                apiUsage (tables (storage w'))
                = (apiUsage (tables db) ++ [row])%list
                /\ apiUsage_values row = PgStorage.stored_values u)
          /\ (read_only db = true ->
              storage w' = db
              /\ In ("Failed to record API usage: " ++ read_only_error)
                   (logged w'))).
Proof.
  intros Hpass. unfold serve. rewrite Hpass.
  apply validateApiKey_next_inv in Hpass.
  destruct Hpass as (token & k & Hlookup & ->).
  simpl in Hlookup.
  destruct (online db) eqn:Hon; [|discriminate].
  set (w1 := with_req _ _).
  destruct (after_validation_kept URL_hostname k w1 handler eq_refl eq_refl)
    as (w' & Hrun & Hw').
  exists w'. split; [exact Hrun|]. intros Hfin.
  destruct Hw' as [(_ & Hf & _)|(_ & _ & u & Hrec & Hsto & Hlog)].
  - simpl in Hf. lia.
  - exists u. split; [exact Hrec|].
    simpl in Hsto, Hlog. rewrite Hon in Hsto, Hlog.
    split; intros Hro; rewrite Hro in Hsto, Hlog; simpl in Hsto, Hlog.
    + rewrite Hsto. simpl. eexists. split; reflexivity.
    + now split.
Qed.

Lemma usage_recorded_once_witness :
  exists w',
    serve Url.hostname [SetStatus 201; EndResponse; EndResponse]
      (arrives (sample_request (Some "Bearer k-one")
                  (Some "https://example.com") None
                  "/api/v1/agents" "POST") sample_db) = Some w'
    /\ res_finished (res w') = 2%nat
    /\ length (records (calls w')) = 1%nat
    /\ length (apiUsage (tables (storage w'))) = 1%nat.
Proof.
  destruct (usage_recorded_once Url.hostname
    (sample_request (Some "Bearer k-one") (Some "https://example.com") None
       "/api/v1/agents" "POST") sample_db [SetStatus 201; EndResponse; EndResponse]
    _ eq_refl) as (w' & Hrun & Honce).
  exists w'. split; [exact Hrun|].
  assert (Hfin : res_finished (res w') = 2%nat).
  { vm_compute in Hrun. injection Hrun as <-. reflexivity. }
  split; [exact Hfin|].
  destruct Honce as (u & Hrec & Hrow & _); [rewrite Hfin; lia|].
  destruct (Hrow eq_refl) as (row & Htab & _).
  rewrite Hrec, Htab. split; reflexivity.
Defined.

(** ** The usage record *)

(** C7, as stated, fails: the usage row does not hold the request's method;
    a POST and a PUT that agree otherwise leave the same row. *)
Lemma usage_record_omits_method :
  ~ exists method_of : InsertApiUsage -> string,
      forall (k : ApiKey) (w : World Database),
        method_of (usage_of k w) = req_method (req w).
Proof.
  intros [method_of Hm].
  pose proof (Hm key_one (arrives (with_apiKey
    (sample_request None None None "/api/v1/agents" "POST") key_one)
    sample_db)) as Hpost.
  pose proof (Hm key_one (arrives (with_apiKey
    (sample_request None None None "/api/v1/agents" "PUT") key_one)
    sample_db)) as Hput.
  cbv in Hpost, Hput. rewrite Hpost in Hput. discriminate.
Qed.

(** C7, amended: with a key attached, [trackApiUsage] puts its closure in
    [res.end]; when the response is then finished and storage accepts the
    insert, the usage row that is stored holds the id of the attached key,
    the request's original URL, the status code of the response as a
    decimal string, and the request body, or [null] when the method is GET
    or the request has no body; it does not hold the method. *)
Theorem usage_record_fields (w : World Database) (k : ApiKey) :
  req_apiKey (req w) = Some k ->
  res_end (res w) = nativeEnd ->
  exists w1,
    trackApiUsage w = Some (w1, Next)
    /\ res_end (res w1) = trackedEnd k nativeEnd
    /\ forall w2 : World Database,
         res_end (res w2) = res_end (res w1) ->
         online (storage w2) = true ->
         read_only (storage w2) = false ->
         exists w3 row u,
           res_end_call w2 = Some w3
           /\ calls w3 = (calls w2 ++ [CallRecordApiUsage u])%list
           /\ apiUsage (tables (storage w3))
              = (apiUsage (tables (storage w2)) ++ [row])%list
           /\ apiUsage_values row = PgStorage.stored_values u
           /\ apiKeyId (apiUsage_values row) = apiKeys_id k
           /\ endpoint (apiUsage_values row) = req_originalUrl (req w2)
           /\ statusCode (apiUsage_values row)
              = Js.toString (res_statusCode (res w2))
           /\ requestPayload (apiUsage_values row)
              = (if String.eqb (req_method (req w2)) "GET" then JsNull
                 else PgStorage.stored_payload (req_body (req w2))).
Proof.
  intros Hk Hend. unfold trackApiUsage. rewrite Hk, Hend.
  eexists. split; [reflexivity|]. split; [reflexivity|].
  simpl res_end. intros w2 Hhook Hon Hrw.
  rewrite (res_end_call_tracked w2 k Hhook). cbn zeta.
  unfold fire_recordApiUsage. simpl. rewrite Hon, Hrw. simpl.
  eexists.
  exists {| apiUsage_id :=
              PgStorage.next_usage_id (apiUsage (tables (storage w2)));
            apiUsage_values :=
              PgStorage.stored_values
                (usage_of k (with_res w2 (with_end (res w2) nativeEnd))) |}.
  exists (usage_of k (with_res w2 (with_end (res w2) nativeEnd))).
  split; [reflexivity|]. simpl. repeat split.
  now destruct (String.eqb (req_method (req w2)) "GET").
Qed.

Example undefined_body_stored_as_null :
  option_map
    (fun w => map (fun r => requestPayload (apiUsage_values r))
                (apiUsage (tables (storage w))))
    (res_end_call
       (with_res
          (arrives
             {| req_headers :=
                  {| authorization := None; origin := None; referer := None |};
                req_path := "/api/v1/agents";
                req_originalUrl := "/api/v1/agents";
                req_method := "POST"; req_body := JsUndefined;
                req_apiKey := Some key_one |} sample_db)
          (with_end fresh_response (trackedEnd key_one nativeEnd))))
  = Some [JsNull].
Proof. reflexivity. Qed.

Lemma usage_record_fields_witness :
  let w := arrives (with_apiKey
    (sample_request None None None "/api/v1/agents" "GET") key_one)
    sample_db in
  exists w1 w3,
    trackApiUsage w = Some (w1, Next)
    /\ res_end_call (with_res w1 (with_status (res w1) 404)) = Some w3
    /\ map apiUsage_values (apiUsage (tables (storage w3)))
       = [ {| apiKeyId := 1; endpoint := "/api/v1/agents?page=2";
              statusCode := "404"; requestPayload := JsNull |} ].
Proof.
  cbn zeta.
  destruct (usage_record_fields
    (arrives (with_apiKey
       (sample_request None None None "/api/v1/agents" "GET") key_one)
       sample_db) key_one eq_refl eq_refl) as (w1 & Htrack & Hhook & Hend).
  destruct (Hend (with_res w1 (with_status (res w1) 404))
              eq_refl)
    as (w3 & row & u & Hrun & _ & Htab & _ & Hid & Hurl & Hcode & Hbody).
  { vm_compute in Htrack. injection Htrack as <-. reflexivity. }
  { vm_compute in Htrack. injection Htrack as <-. reflexivity. }
  exists w1, w3. split; [exact Htrack|]. split; [exact Hrun|].
  rewrite Htab. vm_compute in Htrack. injection Htrack as <-.
  simpl in *. destruct row as [rid [a e c p]]. simpl in *.
  now subst.
Defined.

(** * Further properties of the adapter *)

Section UpdateFacts.
Context {R : Type}.

Lemma where_map_stable (p : R -> bool) (g : R -> R) (t : list R) :
  (forall r, p (g r) = p r) ->
  Query.where_ p (map g t) = map g (Query.where_ p t).
Proof.
  intros Hp. unfold Query.where_. induction t as [|a t IH]; simpl.
  - reflexivity.
  - rewrite Hp. destruct (p a); simpl; now rewrite IH.
Qed.

Lemma first_map (g : R -> R) (l : list R) :
  Query.first (map g l) = option_map g (Query.first l).
Proof. now destruct l. Qed.

Lemma map_where_agree (p : R -> bool) (f g : R -> R) (t : list R) :
  (forall r, p r = true -> g r = f r) ->
  map g (Query.where_ p t) = map f (Query.where_ p t).
Proof.
  intros Hfg. apply map_ext_in. intros r Hr.
  apply filter_In in Hr. now apply Hfg.
Qed.

Lemma where_perm (p : R -> bool) (a b : list R) :
  Permutation a b -> Permutation (Query.where_ p a) (Query.where_ p b).
Proof.
  unfold Query.where_. induction 1 as [|x a b Hab IH|x y a|a b c Hab IHab Hbc IHbc];
    simpl.
  - constructor.
  - destruct (p x); [now constructor | exact IH].
  - destruct (p x), (p y); try apply Permutation_refl. apply perm_swap.
  - eapply perm_trans; eassumption.
Qed.

Lemma where_where (p q : R -> bool) (t : list R) :
  (forall r, In r t -> p r = true -> q r = true) ->
  Query.where_ (fun r => p r && q r) t = Query.where_ p t.
Proof.
  intros Hpq. unfold Query.where_. apply filter_ext_in. intros r Hr.
  destruct (p r) eqn:E; [|reflexivity]. simpl. now apply Hpq.
Qed.

Lemma update_update (f : R -> R) (p : R -> bool) (t : list R) :
  (forall r, p (f r) = p r) -> (forall r, f (f r) = f r) ->
  Query.update f p (Query.update f p t) = Query.update f p t.
Proof.
  intros Hp Hf. unfold Query.update. rewrite map_map. apply map_ext.
  intros r. destruct (p r) eqn:E.
  - now rewrite Hp, E, Hf.
  - now rewrite E.
Qed.

Lemma where_update (f : R -> R) (p q : R -> bool) (t : list R) :
  (forall r, q (f r) = q r) ->
  Query.where_ q (Query.update f p t)
  = Query.update f p (Query.where_ q t).
Proof.
  intros Hq. unfold Query.update. apply where_map_stable.
  intros r. destruct (p r); [apply Hq | reflexivity].
Qed.

Lemma update_where_same (f : R -> R) (p : R -> bool) (t : list R) :
  Query.update f p (Query.where_ p t) = map f (Query.where_ p t).
Proof.
  unfold Query.update. apply map_where_agree. now intros r ->.
Qed.

Lemma update_where_other (f : R -> R) (p q : R -> bool) (t : list R) :
  (forall r, q r = true -> p r = false) ->
  Query.update f p (Query.where_ q t) = Query.where_ q t.
Proof.
  intros Hqp. unfold Query.update.
  rewrite (map_where_agree q (fun r => r)); [apply map_id|].
  intros r Hr. now rewrite (Hqp r Hr).
Qed.

End UpdateFacts.

Lemma active_after_deactivation (id : Z) (key : string) (t : list ApiKey) :
  Query.where_
    (Query.and (Query.eq apiKeys_key key) (Query.eq apiKeys_active true))
    (Query.update (PgStorage.set_active false) (Query.eq apiKeys_id id) t)
  = Query.where_
      (fun r => Query.and (Query.eq apiKeys_key key)
                  (Query.eq apiKeys_active true) r
                && negb (Query.eq apiKeys_id id r)) t.
Proof.
  unfold Query.where_, Query.update.
  induction t as [|a t IH]; [reflexivity|].
  cbn [map filter]. rewrite IH. unfold Query.and, Query.eq. cbn [Query.same
    Query.Column_Z Query.Column_string Query.Column_bool].
  destruct (apiKeys_id a =? id); cbn [PgStorage.set_active apiKeys_key
    apiKeys_active negb].
  - cbn [Bool.eqb]. now rewrite !andb_false_r.
  - now rewrite andb_true_r.
Qed.

(** X1: once [deactivateApiKey id] has run, [validateApiKey] returns no row
    with that id, whatever the key string; and for a key string that no row
    with that id carries, it returns what it returned before. *)
Theorem deactivated_key_rejected (id : Z) (key : string) (db : Tables) :
  let db' := fst (PgStorage.deactivateApiKey id db) in
  (forall k, PgStorage.validateApiKey key db' = Some k -> apiKeys_id k <> id)
  /\ ((forall r, In r (apiKeys db) -> apiKeys_id r = id ->
                 apiKeys_key r <> key) ->
      PgStorage.validateApiKey key db' = PgStorage.validateApiKey key db).
Proof.
  cbn zeta. unfold PgStorage.validateApiKey, PgStorage.deactivateApiKey.
  cbn [fst apiKeys PgStorage.with_apiKeys]. unfold Query.from.
  rewrite active_after_deactivation. split.
  - intros k Hk.
    pose proof (first_where
      (fun r => Query.and (Query.eq apiKeys_key key)
                  (Query.eq apiKeys_active true) r
                && negb (Query.eq apiKeys_id id r))
      (fun r => apiKeys_id r <> id) (filter (fun r =>
         Query.and (Query.eq apiKeys_key key)
           (Query.eq apiKeys_active true) r
         && negb (Query.eq apiKeys_id id r)) (apiKeys db))) as Hfirst.
    assert (Hin : In k (Query.where_ (fun r =>
         Query.and (Query.eq apiKeys_key key)
           (Query.eq apiKeys_active true) r
         && negb (Query.eq apiKeys_id id r)) (apiKeys db))).
    { clear Hfirst. unfold Query.where_ in *.
      destruct (filter _ (apiKeys db)) as [|x l]; [discriminate|].
      injection Hk as ->. now left. }
    apply filter_In in Hin. destruct Hin as [_ Hc].
    apply andb_true_iff in Hc. destruct Hc as [_ Hne].
    intros Hid. apply (eq_iff apiKeys_id id k) in Hid.
    rewrite Hid in Hne. discriminate.
  - intros Hother. f_equal. apply where_where. intros r Hr Hc.
    unfold Query.and in Hc. apply andb_true_iff in Hc. destruct Hc as [Hk _].
    apply (eq_iff apiKeys_key key r) in Hk.
    destruct (Query.eq apiKeys_id id r) eqn:E; [|reflexivity].
    apply (eq_iff apiKeys_id id r) in E.
    now contradiction (Hother r Hr E).
Qed.

Lemma deactivated_key_rejected_witness :
  PgStorage.validateApiKey "k-one"
    (fst (PgStorage.deactivateApiKey 1 sample_keys)) = None
  /\ PgStorage.validateApiKey "k-three"
       (fst (PgStorage.deactivateApiKey 1 sample_keys))
     = PgStorage.validateApiKey "k-three" sample_keys.
Proof.
  destruct (deactivated_key_rejected 1 "k-one" sample_keys) as [Hnot _].
  destruct (deactivated_key_rejected 1 "k-three" sample_keys) as [_ Hsame].
  split.
  - destruct (PgStorage.validateApiKey "k-one"
                (fst (PgStorage.deactivateApiKey 1 sample_keys)))
      as [k|] eqn:Hk; [|reflexivity].
    exfalso. apply (Hnot k eq_refl).
    vm_compute in Hk. discriminate.
  - apply Hsame. simpl. intros r [<-|[<-|[<-|[]]]]; simpl; intros Hid;
      discriminate.
Defined.

(** X2: [deactivateApiKey] is idempotent: a second call with the same id
    leaves the database as the first call left it and returns the same
    row. *)
Theorem deactivateApiKey_idempotent (id : Z) (db : Tables) :
  let once := PgStorage.deactivateApiKey id db in
  PgStorage.deactivateApiKey id (fst once) = once.
Proof.
  cbn zeta. unfold PgStorage.deactivateApiKey.
  cbn [fst apiKeys PgStorage.with_apiKeys]. f_equal.
  - rewrite update_update; [now destruct db | reflexivity | reflexivity].
  - f_equal. unfold Query.update_returning.
    change (filter ?p ?l) with (Query.where_ p l).
    rewrite where_update by reflexivity.
    rewrite update_where_same, map_map. reflexivity.
Qed.

(** X3: deactivation deletes nothing: afterwards, in whatever order the
    store lists the key rows, [getApiKeysByUserId] returns for each user the
    keys it returned before, the deactivated one with [active = false];
    and [getApiKeyById id] returns the row that [deactivateApiKey id]
    returned. *)
Theorem deactivated_key_still_listed (id : Z) (userId : string) (db : Tables)
  (rows : list ApiKey) :
  Permutation rows (apiKeys (fst (PgStorage.deactivateApiKey id db))) ->
  Permutation
    (PgStorage.getApiKeysByUserId userId (PgStorage.with_apiKeys db rows))
    (map (fun r => if apiKeys_id r =? id
                   then PgStorage.set_active false r else r)
       (PgStorage.getApiKeysByUserId userId db))
  /\ PgStorage.getApiKeyById id (fst (PgStorage.deactivateApiKey id db))
     = snd (PgStorage.deactivateApiKey id db).
Proof.
  unfold PgStorage.getApiKeysByUserId, PgStorage.getApiKeyById,
    PgStorage.deactivateApiKey.
  cbn [fst snd apiKeys PgStorage.with_apiKeys]. unfold Query.from.
  intros Hperm. split.
  - eapply perm_trans; [apply where_perm, Hperm|].
    rewrite where_update by reflexivity. apply Permutation_refl.
  - rewrite where_update by reflexivity.
    now rewrite update_where_same.
Qed.

Lemma deactivated_key_still_listed_witness :
  Permutation
    (PgStorage.getApiKeysByUserId "u1"
       (PgStorage.with_apiKeys sample_keys
          (rev (apiKeys (fst (PgStorage.deactivateApiKey 1 sample_keys))))))
    (map (fun r => if apiKeys_id r =? 1
                   then PgStorage.set_active false r else r)
       (PgStorage.getApiKeysByUserId "u1" sample_keys)).
Proof.
  apply (deactivated_key_still_listed 1 "u1" sample_keys
           (rev (apiKeys (fst (PgStorage.deactivateApiKey 1 sample_keys))))).
  apply Permutation_sym, Permutation_rev.
Defined.

Lemma keys_after_lastUsed (id now : Z) (t : list ApiKey) :
  map apiKeys_key
    (Query.update (PgStorage.set_lastUsed now) (Query.eq apiKeys_id id) t)
  = map apiKeys_key t.
Proof.
  unfold Query.update. rewrite map_map. apply map_ext.
  intros r. now destruct (Query.eq apiKeys_id id r).
Qed.

Lemma one_row_per_key (key : string) (c : ApiKey -> bool) (t : list ApiKey) :
  NoDup (map apiKeys_key t) ->
  (length (Query.where_ (Query.and (Query.eq apiKeys_key key) c) t) <= 1)%nat.
Proof.
  unfold Query.where_. induction t as [|a t IH]; simpl; intros Hnd; [lia|].
  inversion Hnd as [|? ? Ha Hnd']; subst.
  destruct (Query.and (Query.eq apiKeys_key key) c a) eqn:E;
    [|now apply IH].
  destruct (filter (Query.and (Query.eq apiKeys_key key) c) t)
    as [|b l] eqn:F; [simpl; lia|].
  exfalso. apply Ha.
  assert (Hb : In b (filter (Query.and (Query.eq apiKeys_key key) c) t))
    by (rewrite F; now left).
  apply filter_In in Hb. destruct Hb as [Hin Hc].
  unfold Query.and in E, Hc.
  apply andb_true_iff in E. apply andb_true_iff in Hc.
  destruct E as [Ea _], Hc as [Eb _].
  apply (eq_iff apiKeys_key key a) in Ea.
  apply (eq_iff apiKeys_key key b) in Eb.
  rewrite Ea, <- Eb. now apply in_map.
Qed.

Lemma first_perm_single {R : Type} (l1 l2 : list R) :
  Permutation l1 l2 -> (length l2 <= 1)%nat ->
  Query.first l1 = Query.first l2.
Proof.
  intros Hperm Hlen. destruct l2 as [|x [|y l2]]; simpl in Hlen; [| |lia].
  - apply Permutation_sym, Permutation_nil in Hperm. now subst.
  - apply Permutation_sym, Permutation_length_1_inv in Hperm. now subst.
Qed.

(** X4: when the key strings of the key rows are distinct,
    [updateApiKeyLastUsed] never changes which key validates: afterwards,
    in whatever order the store lists the rows, [validateApiKey] returns
    the row it returned before, with [lastUsed] set if that row has the
    given id. *)
Theorem lastUsed_keeps_validation (id now : Z) (key : string) (db : Tables)
  (rows : list ApiKey) :
  NoDup (map apiKeys_key (apiKeys db)) ->
  Permutation rows (apiKeys (PgStorage.updateApiKeyLastUsed id now db)) ->
  PgStorage.validateApiKey key (PgStorage.with_apiKeys db rows)
  = option_map
      (fun r => if apiKeys_id r =? id
                then PgStorage.set_lastUsed now r else r)
      (PgStorage.validateApiKey key db).
Proof.
  unfold PgStorage.validateApiKey, PgStorage.updateApiKeyLastUsed.
  cbn [apiKeys PgStorage.with_apiKeys]. unfold Query.from.
  intros Hnd Hperm.
  rewrite (first_perm_single _
    (Query.where_
       (Query.and (Query.eq apiKeys_key key) (Query.eq apiKeys_active true))
       (Query.update (PgStorage.set_lastUsed now) (Query.eq apiKeys_id id)
          (apiKeys db)))).
  - rewrite where_update by reflexivity. apply first_map.
  - apply where_perm, Hperm.
  - apply one_row_per_key. now rewrite keys_after_lastUsed.
Qed.

Lemma lastUsed_keeps_validation_witness :
  option_map apiKeys_lastUsed
    (PgStorage.validateApiKey "k-three"
       (PgStorage.with_apiKeys sample_keys
          (rev (apiKeys (PgStorage.updateApiKeyLastUsed 3 77 sample_keys)))))
  = Some (Some 77).
Proof.
  rewrite (lastUsed_keeps_validation 3 77 "k-three" sample_keys
    (rev (apiKeys (PgStorage.updateApiKeyLastUsed 3 77 sample_keys)))).
  - reflexivity.
  - simpl. repeat constructor; simpl; intuition discriminate.
  - apply Permutation_sym, Permutation_rev.
Defined.

(** X5: after [updateAgentStatus agentId status], [getAgentById agentId]
    returns the row that the update returned, with the new status, and
    [getAgentById] of any other agent id returns what it returned before;
    when no agent has the id, the update returns [undefined] and changes
    nothing. *)
Theorem updateAgentStatus_then_get (agentId status : string) (now : Z)
  (db : Tables) :
  let db' := fst (PgStorage.updateAgentStatus agentId status now db) in
  let result := snd (PgStorage.updateAgentStatus agentId status now db) in
  PgStorage.getAgentById agentId db' = result
  /\ (forall a, result = Some a ->
                agents_agentId a = agentId /\ agents_status a = status
                /\ agents_updatedAt a = now)
  /\ (forall other, other <> agentId ->
        PgStorage.getAgentById other db' = PgStorage.getAgentById other db)
  /\ (PgStorage.getAgentById agentId db = None ->
      result = None /\ db' = db).
Proof.
  cbn zeta. unfold PgStorage.getAgentById, PgStorage.updateAgentStatus.
  cbn [fst snd agents PgStorage.with_agents]. unfold Query.from.
  pose proof (first_where (Query.eq agents_agentId agentId)
    (fun r => agents_agentId r = agentId) (agents db)
    (eq_iff agents_agentId agentId)) as Hfirst.
  unfold Query.from in Hfirst.
  split; [|split; [|split]].
  - rewrite where_update by reflexivity. now rewrite update_where_same.
  - intros a Ha. rewrite first_update_returning in Ha. unfold Query.from in Ha.
    destruct (Query.first _) as [r|]; [|discriminate].
    apply first_match_in in Hfirst. destruct Hfirst as [_ Hr].
    injection Ha as <-. simpl. auto.
  - intros other Hother. rewrite where_update by reflexivity.
    rewrite update_where_other; [reflexivity|].
    intros r Hr. apply (eq_iff agents_agentId other r) in Hr.
    destruct (Query.eq agents_agentId agentId r) eqn:E; [|reflexivity].
    apply (eq_iff agents_agentId agentId r) in E. congruence.
  - intros Hnone. rewrite Hnone in Hfirst.
    rewrite first_update_returning. unfold Query.from. rewrite Hnone.
    split; [reflexivity|].
    rewrite update_none; [now destruct db|].
    intros x Hx. apply Hfirst in Hx.
    destruct (Query.eq agents_agentId agentId x) eqn:E; [|reflexivity].
    exfalso. apply Hx. revert E. apply eq_iff.
Qed.

Lemma updateAgentStatus_then_get_witness :
  option_map agents_status
    (PgStorage.getAgentById "a2"
       (fst (PgStorage.updateAgentStatus "a2" "paused" 9 sample_agents)))
  = Some "paused"
  /\ PgStorage.getAgentById "a1"
       (fst (PgStorage.updateAgentStatus "a2" "paused" 9 sample_agents))
     = PgStorage.getAgentById "a1" sample_agents
  /\ fst (PgStorage.updateAgentStatus "a3" "paused" 9 sample_agents)
     = sample_agents.
Proof.
  destruct (updateAgentStatus_then_get "a2" "paused" 9 sample_agents)
    as (Hget & Hnew & Hother & _).
  destruct (updateAgentStatus_then_get "a3" "paused" 9 sample_agents)
    as (_ & _ & _ & Hnone).
  split; [|split].
  - cbn zeta in Hget, Hnew. rewrite Hget.
    destruct (snd (PgStorage.updateAgentStatus "a2" "paused" 9 sample_agents))
      as [a|] eqn:Ha; [|discriminate].
    destruct (Hnew a eq_refl) as (_ & Hst & _). simpl. now rewrite Hst.
  - apply Hother. discriminate.
  - apply Hnone. reflexivity.
Defined.

(** X6: [deactivateIntegration] keeps the permitted domains: afterwards,
    in whatever order the store lists the integrations,
    [getIntegrationsByApiKeyId] returns for every key the integrations it
    returned before, the deactivated one with [active = false] and
    [updatedAt] set, and so the same domains. *)
Theorem deactivateIntegration_keeps_domains (id now apiKeyId : Z)
  (db : Tables) (rows : list AgentIntegration) :
  Permutation rows
    (agentIntegrations (fst (PgStorage.deactivateIntegration id now db))) ->
  Permutation
    (PgStorage.getIntegrationsByApiKeyId apiKeyId
       (PgStorage.with_agentIntegrations db rows))
    (map (fun r => if agentIntegrations_id r =? id
                   then PgStorage.set_inactive now r else r)
       (PgStorage.getIntegrationsByApiKeyId apiKeyId db))
  /\ Permutation
       (map domain
          (PgStorage.getIntegrationsByApiKeyId apiKeyId
             (PgStorage.with_agentIntegrations db rows)))
       (map domain (PgStorage.getIntegrationsByApiKeyId apiKeyId db)).
Proof.
  unfold PgStorage.getIntegrationsByApiKeyId, PgStorage.deactivateIntegration.
  cbn [fst agentIntegrations PgStorage.with_agentIntegrations].
  unfold Query.from. intros Hperm.
  assert (Hrows : Permutation
    (Query.where_ (Query.eq agentIntegrations_apiKeyId apiKeyId) rows)
    (Query.update (PgStorage.set_inactive now)
       (Query.eq agentIntegrations_id id)
       (Query.where_ (Query.eq agentIntegrations_apiKeyId apiKeyId)
          (agentIntegrations db)))).
  { eapply perm_trans; [apply where_perm, Hperm|].
    rewrite where_update by reflexivity. apply Permutation_refl. }
  split; [exact Hrows|].
  eapply perm_trans; [apply Permutation_map, Hrows|].
  unfold Query.update. rewrite map_map.
  erewrite map_ext; [apply Permutation_refl|].
  intros r. now destruct (Query.eq agentIntegrations_id id r).
Qed.

Lemma deactivateIntegration_keeps_domains_witness :
  Permutation
    (map domain
       (PgStorage.getIntegrationsByApiKeyId 1
          (PgStorage.with_agentIntegrations sample_keys
             (rev (agentIntegrations
                     (fst (PgStorage.deactivateIntegration 1 50
                             sample_keys)))))))
    ["example.com"; "*.example.org"].
Proof.
  apply (deactivateIntegration_keeps_domains 1 50 1 sample_keys
    (rev (agentIntegrations
            (fst (PgStorage.deactivateIntegration 1 50 sample_keys))))).
  apply Permutation_sym, Permutation_rev.
Defined.

Lemma domains_after_deactivation (id now apiKeyId : Z) (db : Tables) :
  map domain
    (PgStorage.getIntegrationsByApiKeyId apiKeyId
       (fst (PgStorage.deactivateIntegration id now db)))
  = map domain (PgStorage.getIntegrationsByApiKeyId apiKeyId db).
Proof.
  unfold PgStorage.getIntegrationsByApiKeyId, PgStorage.deactivateIntegration.
  cbn [fst agentIntegrations PgStorage.with_agentIntegrations].
  unfold Query.from. rewrite where_update by reflexivity.
  unfold Query.update. rewrite map_map. apply map_ext.
  intros r. now destruct (Query.eq agentIntegrations_id id r).
Qed.

(** X7: the usage row that [recordApiUsage] inserts and returns never
    holds [undefined]: a payload given as [undefined] is stored as [null]
    and every other value as given; the row is then found by
    [getApiUsageByKeyId] under its own key id, after the rows that were
    there, and the rows listed for every other key id are as they were. *)
Theorem recordApiUsage_then_get (usage : InsertApiUsage) (keyId : Z)
  (db : Tables) :
  let db' := fst (PgStorage.recordApiUsage usage db) in
  let row := snd (PgStorage.recordApiUsage usage db) in
  apiKeyId (apiUsage_values row) = apiKeyId usage
  /\ endpoint (apiUsage_values row) = endpoint usage
  /\ statusCode (apiUsage_values row) = statusCode usage
  /\ requestPayload (apiUsage_values row) <> JsUndefined
  /\ (requestPayload usage <> JsUndefined ->
      requestPayload (apiUsage_values row) = requestPayload usage)
  /\ (requestPayload usage = JsUndefined ->
      requestPayload (apiUsage_values row) = JsNull)
  /\ PgStorage.getApiUsageByKeyId keyId db'
     = (PgStorage.getApiUsageByKeyId keyId db
        ++ (if apiKeyId usage =? keyId then [row] else []))%list.
Proof.
  cbn zeta. unfold PgStorage.getApiUsageByKeyId, PgStorage.recordApiUsage.
  cbn [fst snd apiUsage PgStorage.with_apiUsage apiUsage_values].
  unfold PgStorage.stored_values at 1 2 3 4 5 6. simpl.
  repeat split.
  - now destruct (requestPayload usage).
  - intros Hdef. now destruct (requestPayload usage).
  - now intros ->.
  - unfold Query.from, Query.where_. rewrite filter_app. f_equal.
Qed.

Lemma recordApiUsage_then_get_witness :
  map (fun r => requestPayload (apiUsage_values r))
    (PgStorage.getApiUsageByKeyId 1
       (fst (PgStorage.recordApiUsage
               {| apiKeyId := 1; endpoint := "/api/v1/agents";
                  statusCode := "201"; requestPayload := JsUndefined |}
               sample_keys)))
  = [JsNull].
Proof.
  destruct (recordApiUsage_then_get
    {| apiKeyId := 1; endpoint := "/api/v1/agents";
       statusCode := "201"; requestPayload := JsUndefined |} 1 sample_keys)
    as (_ & _ & _ & _ & _ & _ & Hget).
  cbn zeta in Hget. rewrite Hget. reflexivity.
Defined.

Lemma unique_by_id (t : list ApiKey) (a b : ApiKey) :
  NoDup (map apiKeys_id t) -> In a t -> In b t ->
  apiKeys_id a = apiKeys_id b -> a = b.
Proof.
  induction t as [|x t IH]; simpl; intros Hnd Ha Hb Hid; [contradiction|].
  inversion Hnd as [|? ? Hx Hnd']; subst.
  destruct Ha as [<-|Ha], Hb as [<-|Hb]; try reflexivity.
  - exfalso. apply Hx. rewrite Hid. now apply in_map.
  - exfalso. apply Hx. rewrite <- Hid. now apply in_map.
  - now apply IH.
Qed.

(** X8: when the ids of the key rows are distinct, the row that
    [validateApiKey] returns for a key string is the row that
    [getApiKeyById] returns for its id. *)
Theorem validated_key_by_id (key : string) (db : Tables) (k : ApiKey) :
  NoDup (map apiKeys_id (apiKeys db)) ->
  PgStorage.validateApiKey key db = Some k ->
  PgStorage.getApiKeyById (apiKeys_id k) db = Some k.
Proof.
  intros Hnd Hk.
  pose proof (validateApiKey_first key db) as Hv. rewrite Hk in Hv.
  apply first_match_in in Hv. destruct Hv as [Hin _].
  pose proof (first_where (Query.eq apiKeys_id (apiKeys_id k))
    (fun r => apiKeys_id r = apiKeys_id k) (apiKeys db)
    (eq_iff apiKeys_id (apiKeys_id k))) as Hg.
  fold (PgStorage.getApiKeyById (apiKeys_id k) db) in Hg.
  destruct (first_match_found _ _ _ Hg) as [r Hr]; [now exists k|].
  rewrite Hr in *. apply first_match_in in Hg. destruct Hg as [Hrin Hrid].
  f_equal. now apply (unique_by_id (apiKeys db)).
Qed.

Lemma validated_key_by_id_witness :
  NoDup (map apiKeys_id (apiKeys sample_keys))
  /\ PgStorage.validateApiKey "k-three" sample_keys
     = PgStorage.getApiKeyById 3 sample_keys.
Proof.
  assert (Hnd : NoDup (map apiKeys_id (apiKeys sample_keys))).
  { simpl. repeat constructor; simpl; intuition discriminate. }
  split; [exact Hnd|].
  destruct (PgStorage.validateApiKey "k-three" sample_keys) as [k|] eqn:Hk;
    [|discriminate].
  pose proof (validated_key_by_id "k-three" sample_keys k Hnd Hk) as Hget.
  vm_compute in Hk. injection Hk as <-. symmetry. exact Hget.
Defined.

(** * Further properties of the middleware *)

Section ChainFacts.
Context {Store : Type} `{IStorage Store}.
Variable URL_hostname : string -> result string.

Lemma res_status_json_res (code : Z) (body : ErrorBody) (v : World Store) :
  exists w',
    res_status_json code body v = Some w'
    /\ res w' = completed (with_sent (with_status (res v) code) body).
Proof.
  unfold res_status_json.
  set (v2 := with_res _ _).
  destruct (res_end_call_spec v2) as (w' & Hw' & _ & Hres & _).
  exists w'. split; [exact Hw' | exact Hres].
Qed.

Lemma json_native (code : Z) (body : ErrorBody) (v w' : World Store)
  (s : Signal) :
  res_end (res v) = nativeEnd ->
  answered (res_status_json code body v) = Some (w', s) ->
  calls w' = calls v /\ storage w' = storage v
  /\ res_finished (res w') = S (res_finished (res v))
  /\ res_statusCode (res w') = code.
Proof.
  intros Hn Hrun.
  destruct (res_status_json_responds code body v)
    as (w'' & Ho & Hc & _ & Hf & _ & _ & Hnat).
  rewrite Ho in Hrun. injection Hrun as <- <-.
  destruct (Hnat Hn) as [Hcalls Hsto]. auto.
Qed.

Lemma json_tracked (k : ApiKey) (code : Z) (body : ErrorBody)
  (v : World Store) :
  res_end (res v) = trackedEnd k nativeEnd ->
  exists w',
    answered (res_status_json code body v) = Some (w', Done)
    /\ calls w'
       = (calls v ++ [CallRecordApiUsage (usage_with_status k code v)])%list
    /\ res_statusCode (res w') = code
    /\ req w' = req v.
Proof.
  intros Hend. unfold res_status_json.
  rewrite (res_end_call_tracked _ k) by exact Hend. cbn zeta.
  eexists. split; [reflexivity|]. simpl.
  rewrite fire_calls, fire_res, fire_req. repeat split.
Qed.

Lemma handle_native (handler : list Action) :
  forall v : World Store,
    res_end (res v) = nativeEnd ->
    exists v', handle handler v = Some v' /\ calls v' = calls v
               /\ storage v' = storage v.
Proof.
  induction handler as [|a rest IH]; intros v Hn; simpl.
  - now exists v.
  - destruct a as [code|]; simpl.
    + apply (IH (with_res v (with_status (res v) code))). exact Hn.
    + rewrite (res_end_call_native v Hn).
      apply (IH (with_res v (finish (res v)))). exact Hn.
Qed.

Lemma existsb_same_domains (hostname : string)
  (a : list AgentIntegration) :
  forall b, map domain a = map domain b ->
    existsb (domain_allows hostname) a = existsb (domain_allows hostname) b.
Proof.
  induction a as [|x a IH]; intros [|y b] Hmap; try discriminate;
    [reflexivity|].
  simpl in *. injection Hmap as Hxy Hab.
  rewrite (IH b Hab). unfold domain_allows. now rewrite Hxy.
Qed.

Lemma domainMatch_of_same_domains (source : option string)
  (a b : list AgentIntegration) :
  map domain a = map domain b ->
  domainMatch_of URL_hostname source a = domainMatch_of URL_hostname source b.
Proof.
  intros Hmap. unfold domainMatch_of.
  destruct (Js.truthy source); [|reflexivity].
  destruct (URL_hostname _); [|reflexivity].
  now rewrite (existsb_same_domains _ a b Hmap).
Qed.

(** The decision of [verifyDomain] rests on the domains of the
    integrations alone. *)
Lemma verifyDomain_same_domains (w w' : World Store) :
  req w' = req w -> res w' = res w ->
  (forall id,
     match storage_getIntegrationsByApiKeyId id (storage w),
           storage_getIntegrationsByApiKeyId id (storage w') with
     | Ok a, Ok b => map domain a = map domain b
     | Throw _, Throw _ => True
     | _, _ => False
     end) ->
  exists v v' s,
    verifyDomain URL_hostname w = Some (v, s)
    /\ verifyDomain URL_hostname w' = Some (v', s)
    /\ res v' = res v.
Proof.
  intros Hreq Hres Hsto. unfold verifyDomain, verifyDomain_catch.
  rewrite Hreq.
  destruct (req_apiKey (req w)) as [k|]; [|now exists w, w', Next].
  destruct (skips_verification _); [now exists w, w', Next|].
  simpl storage. specialize (Hsto (apiKeys_id k)).
  assert (Hjson : forall code body (x x' : World Store),
    res x' = res x ->
    exists v v', answered (res_status_json code body x) = Some (v, Done)
      /\ answered (res_status_json code body x') = Some (v', Done)
      /\ res v' = res v).
  { intros code body x x' Hx.
    destruct (res_status_json_res code body x) as (v & Hv & Hrv).
    destruct (res_status_json_res code body x') as (v' & Hv' & Hrv').
    exists v, v'. rewrite Hv, Hv'. repeat split. now rewrite Hrv, Hrv', Hx. }
  destruct (storage_getIntegrationsByApiKeyId _ (storage w)) as [a|e],
    (storage_getIntegrationsByApiKeyId _ (storage w')) as [b|e'];
    try contradiction.
  - assert (Hlen : length b = length a).
    { now rewrite <- (length_map domain a), Hsto, length_map. }
    rewrite Hlen, <- (domainMatch_of_same_domains _ a b Hsto).
    destruct (length a =? 0)%nat.
    + edestruct Hjson as (v & v' & Hv & Hv' & Hr); [|exists v, v', Done;
        split; [exact Hv | split; [exact Hv' | exact Hr]]].
      exact Hres.
    + destruct (domainMatch_of _ _ a) as [[|]|err]; simpl.
      * eexists _, _, Next. repeat split. exact Hres.
      * edestruct Hjson as (v & v' & Hv & Hv' & Hr); [|exists v, v', Done;
          split; [exact Hv | split; [exact Hv' | exact Hr]]].
        exact Hres.
      * edestruct Hjson as (v & v' & Hv & Hv' & Hr); [|exists v, v', Done;
          split; [exact Hv | split; [exact Hv' | exact Hr]]].
        exact Hres.
  - edestruct Hjson as (v & v' & Hv & Hv' & Hr); [|exists v, v', Done;
      split; [exact Hv | split; [exact Hv' | exact Hr]]].
    exact Hres.
Qed.

End ChainFacts.

(** X9: a call of [res.end] returns whatever closures are stacked in
    [res.end]: each of them issues its usage insert once and the
    framework's own function is left in place, so that a further call of
    [res.end] makes no storage call at all. *)
Theorem res_end_settles {Store : Type} `{IStorage Store} (w : World Store) :
  exists w1 w2,
    res_end_call w = Some w1
    /\ res_end (res w1) = nativeEnd
    /\ length (records (calls w1))
       = (length (records (calls w)) + wrappers (res_end (res w)))%nat
    /\ lookups (calls w1) = lookups (calls w)
    /\ res_end_call w1 = Some w2
    /\ calls w2 = calls w1 /\ storage w2 = storage w1.
Proof.
  destruct (res_end_call_spec w) as (w1 & Hw1 & _ & Hres & Hl & Hr).
  assert (Hn : res_end (res w1) = nativeEnd) by now rewrite Hres.
  exists w1, (with_res w1 (finish (res w1))).
  repeat split; try assumption.
  now apply res_end_call_native.
Qed.

(** X10: [trackApiUsage] stacks: run twice on a request with a key
    attached, it leaves two closures in [res.end], and finishing the
    response then issues two usage inserts more than it would have
    without them. *)
Theorem trackApiUsage_twice {Store : Type} `{IStorage Store}
  (w : World Store) (k : ApiKey) :
  req_apiKey (req w) = Some k ->
  exists w1 w2 w3,
    trackApiUsage w = Some (w1, Next)
    /\ trackApiUsage w1 = Some (w2, Next)
    /\ res_end_call w2 = Some w3
    /\ length (records (calls w3))
       = (length (records (calls w)) + 2 + wrappers (res_end (res w)))%nat.
Proof.
  intros Hk.
  set (w1 := with_res w (with_end (res w) (trackedEnd k (res_end (res w))))).
  set (w2 := with_res w1
               (with_end (res w1) (trackedEnd k (res_end (res w1))))).
  destruct (res_end_call_spec w2) as (w3 & Hw3 & _ & _ & _ & Hr).
  exists w1, w2, w3. unfold trackApiUsage. simpl req. rewrite Hk.
  repeat split; [exact Hw3|].
  rewrite Hr. simpl. lia.
Qed.

Lemma trackApiUsage_twice_witness :
  exists w3,
    res_end_call
      (with_res (arrives (with_apiKey (sample_request None None None
                            "/api/v1/agents" "POST") key_one) sample_db)
         (with_end fresh_response
            (trackedEnd key_one (trackedEnd key_one nativeEnd))))
    = Some w3
    /\ length (apiUsage (tables (storage w3))) = 2%nat.
Proof.
  destruct (trackApiUsage_twice
    (arrives (with_apiKey (sample_request None None None
                "/api/v1/agents" "POST") key_one) sample_db)
    key_one eq_refl) as (w1 & w2 & w3 & H1 & H2 & H3 & _).
  vm_compute in H1. injection H1 as <-.
  vm_compute in H2. injection H2 as <-.
  exists w3. split; [exact H3|].
  vm_compute in H3. injection H3 as <-. reflexivity.
Defined.

(** X11: a request that [validateApiKey] answers itself goes no further:
    the chain ends with that answer, a 401, 403 or 500; no usage insert and
    no integrations lookup is made, and the store is as it was. *)
Theorem rejected_request_unrecorded {Store : Type} `{IStorage Store}
  (URL_hostname : string -> result string) (handler : list Action)
  (r : Request) (s : Store) (w' : World Store) :
  validateApiKey (arrives r s) = Some (w', Done) ->
  serve URL_hostname handler (arrives r s) = Some w'
  /\ records (calls w') = []
  /\ (forall c, In c (calls w') -> exists key, c = CallValidateApiKey key)
  /\ storage w' = s
  /\ res_finished (res w') = 1%nat
  /\ (res_statusCode (res w') = 401 \/ res_statusCode (res w') = 403
      \/ res_statusCode (res w') = 500).
Proof.
  intros Hrun. unfold serve. rewrite Hrun. split; [reflexivity|].
  revert Hrun. unfold validateApiKey.
  destruct (rejected_header _).
  - intros Hrun. apply json_native in Hrun; [|reflexivity].
    destruct Hrun as (Hc & Hs & Hf & Hcode). rewrite Hc, Hs, Hf, Hcode.
    simpl. repeat split; auto. intros c [].
  - simpl storage.
    destruct (storage_validateApiKey _ _) as [[k|]|err];
      [discriminate | |]; intros Hrun;
      (apply json_native in Hrun; [|reflexivity]);
      destruct Hrun as (Hc & Hs & Hf & Hcode); rewrite Hc, Hs, Hf, Hcode;
      simpl; repeat split; auto;
      intros c [<-|[]]; eexists; reflexivity.
Qed.

Lemma rejected_request_unrecorded_witness :
  exists w',
    serve Url.hostname [SetStatus 201; EndResponse]
      (arrives (sample_request (Some "Bearer k-two")
                  (Some "https://example.com") None
                  "/api/v1/agents" "POST") sample_db) = Some w'
    /\ calls w' = [CallValidateApiKey "k-two"]
    /\ res_statusCode (res w') = 403
    /\ apiUsage (tables (storage w')) = [].
Proof.
  destruct (validateApiKey (arrives (sample_request (Some "Bearer k-two")
              (Some "https://example.com") None "/api/v1/agents" "POST")
              sample_db)) as [[w' s]|] eqn:Hv; [|discriminate].
  assert (Hs : s = Done).
  { vm_compute in Hv. now injection Hv as _ <-. }
  subst s.
  destruct (rejected_request_unrecorded Url.hostname
    [SetStatus 201; EndResponse] _ _ w' Hv) as (Hserve & _ & _ & Hsto & _).
  exists w'. split; [exact Hserve|].
  rewrite Hsto. vm_compute in Hv. injection Hv as <-. repeat split.
Defined.

(** X12: when [verifyDomain] answers a request that [trackApiUsage] has
    wrapped, the handler does not run and the answer is recorded: after the
    integrations lookup one usage insert is issued, for the attached key and
    the request's URL, with the answered status, 403 or 500, as its status
    code. *)
Theorem domain_rejection_recorded {Store : Type} `{IStorage Store}
  (URL_hostname : string -> result string) (handler : list Action)
  (w w2 : World Store) (k : ApiKey) :
  req_apiKey (req w) = Some k ->
  res_end (res w) = nativeEnd ->
  verifyDomain URL_hostname
    (with_res w (with_end (res w) (trackedEnd k nativeEnd)))
  = Some (w2, Done) ->
  after_validation URL_hostname handler w = Some w2
  /\ (res_statusCode (res w2) = 403 \/ res_statusCode (res w2) = 500)
  /\ calls w2
     = (calls w ++
        [CallGetIntegrationsByApiKeyId (apiKeys_id k);
         CallRecordApiUsage
           (usage_with_status k (res_statusCode (res w2)) w)])%list.
Proof.
  intros Hk Hend Hrun.
  split.
  { unfold after_validation, trackApiUsage. rewrite Hk, Hend.
    now rewrite Hrun. }
  revert Hrun. unfold verifyDomain, verifyDomain_catch. simpl req.
  rewrite Hk. destruct (skips_verification _); [discriminate|].
  set (w1 := called _ _). simpl storage.
  assert (Hjson : forall code body (v : World Store),
    res v = res w1 -> req v = req w -> calls v = calls w1 ->
    code = 403 \/ code = 500 ->
    answered (res_status_json code body v) = Some (w2, Done) ->
    (res_statusCode (res w2) = 403 \/ res_statusCode (res w2) = 500)
    /\ calls w2
       = (calls w ++
          [CallGetIntegrationsByApiKeyId (apiKeys_id k);
           CallRecordApiUsage
             (usage_with_status k (res_statusCode (res w2)) w)])%list).
  { intros code body v Hres Hreq Hcalls Hcode Hrun.
    destruct (json_tracked k code body v) as (w' & Hw' & Hc & Hst & _).
    { now rewrite Hres. }
    rewrite Hw' in Hrun. injection Hrun as <-.
    rewrite Hst. split; [exact Hcode|].
    rewrite Hc, Hcalls. unfold w1. simpl. rewrite <- app_assoc. simpl.
    unfold usage_with_status. now rewrite Hreq. }
  destruct (storage_getIntegrationsByApiKeyId _ _) as [integrations|err].
  - destruct (length integrations =? 0)%nat.
    + apply Hjson; auto.
    + destruct (domainMatch_of _ _ _) as [[|]|err]; simpl;
        [discriminate | |]; apply Hjson; auto.
  - apply Hjson; auto.
Qed.

Lemma domain_rejection_recorded_witness :
  exists w2,
    after_validation Url.hostname [SetStatus 201; EndResponse]
      (arrives (with_apiKey (sample_request None
                  (Some "https://evil.test") None
                  "/api/v1/agents" "POST") key_one) sample_db) = Some w2
    /\ map (fun r => statusCode (apiUsage_values r))
         (apiUsage (tables (storage w2))) = ["403"].
Proof.
  destruct (verifyDomain Url.hostname
    (with_res (arrives (with_apiKey (sample_request None
                 (Some "https://evil.test") None
                 "/api/v1/agents" "POST") key_one) sample_db)
       (with_end fresh_response (trackedEnd key_one nativeEnd))))
    as [[w2 s]|] eqn:Hv; [|discriminate].
  assert (Hs : s = Done).
  { vm_compute in Hv. now injection Hv as _ <-. }
  subst s.
  destruct (domain_rejection_recorded Url.hostname
    [SetStatus 201; EndResponse]
    (arrives (with_apiKey (sample_request None
                (Some "https://evil.test") None
                "/api/v1/agents" "POST") key_one) sample_db)
    w2 key_one eq_refl eq_refl Hv)
    as (Hrun & _).
  exists w2. split; [exact Hrun|].
  vm_compute in Hv. injection Hv as <-. reflexivity.
Defined.

Lemma last_default (x : Z) (l : list Z) (a b : Z) :
  last (x :: l) a = last (x :: l) b.
Proof.
  revert x. induction l as [|y l IH]; intros x; [reflexivity|].
  change (last (y :: l) a = last (y :: l) b). apply IH.
Qed.

(** X13: the status that is recorded is the one in effect at the first
    call of [res.end]: for a handler that sets the status any number of
    times, ends the response and goes on, the single usage insert carries
    the last status set before that call, or the status the handler found
    when it set none; what follows changes neither the record nor the
    store. *)
Theorem recorded_status_at_first_end {Store : Type} `{IStorage Store}
  (k : ApiKey) (codes : list Z) (rest : list Action) :
  forall w : World Store,
    res_end (res w) = trackedEnd k nativeEnd ->
    exists w',
      handle (map SetStatus codes ++ EndResponse :: rest) w = Some w'
      /\ calls w'
         = (calls w ++
            [CallRecordApiUsage
               (usage_with_status k (last codes (res_statusCode (res w))) w)])%list.
Proof.
  induction codes as [|c codes IH]; intros w Hend.
  - cbn [map app handle act last].
    rewrite (res_end_call_tracked w k Hend). cbn zeta.
    set (w1 := with_res w (with_end (res w) nativeEnd)).
    set (w2 := fire_recordApiUsage (usage_of k w1) w1).
    destruct (handle_native rest (with_res w2 (finish (res w2))))
      as (w' & Hw' & Hc & _).
    { simpl. unfold w2. now rewrite fire_res. }
    exists w'. split; [exact Hw'|].
    rewrite Hc. simpl. unfold w2. now rewrite fire_calls.
  - cbn [map app handle act].
    destruct (IH (with_res w (with_status (res w) c)) Hend) as (w' & Hw' & Hc).
    exists w'. split; [exact Hw'|]. rewrite Hc. simpl calls.
    do 3 f_equal.
    unfold usage_with_status. simpl req. f_equal. f_equal.
    simpl. destruct codes as [|c' codes]; [reflexivity|].
    apply last_default.
Qed.

Lemma recorded_status_at_first_end_witness :
  exists w',
    handle [SetStatus 202; SetStatus 404; EndResponse; SetStatus 500;
            EndResponse]
      (with_res (arrives (with_apiKey (sample_request None None None
                            "/api/v1/agents" "POST") key_one) sample_db)
         (with_end fresh_response (trackedEnd key_one nativeEnd)))
    = Some w'
    /\ map (fun r => statusCode (apiUsage_values r))
         (apiUsage (tables (storage w'))) = ["404"].
Proof.
  destruct (recorded_status_at_first_end key_one [202; 404]
    [SetStatus 500; EndResponse]
    (with_res (arrives (with_apiKey (sample_request None None None
                          "/api/v1/agents" "POST") key_one) sample_db)
       (with_end fresh_response (trackedEnd key_one nativeEnd)))
    eq_refl) as (w' & Hrun & _).
  exists w'. split; [exact Hrun|].
  vm_compute in Hrun. injection Hrun as <-. reflexivity.
Defined.

(** X14: a wildcard domain [*.D] admits every host name [sub.D], whatever
    [sub], and never the apex [D] itself. *)
Theorem wildcard_excludes_apex (D : string) (i : AgentIntegration) :
  domain i = "*." ++ D ->
  domain_allows D i = false
  /\ forall sub, domain_allows (sub ++ "." ++ D) i = true.
Proof.
  intros Hd. split.
  - destruct (domain_allows D i) eqn:E; [|reflexivity].
    apply domain_allows_iff in E. rewrite Hd in E.
    destruct E as [Heq|(D' & HD & sub & Hsub)].
    + apply (f_equal String.length) in Heq. simpl in Heq. lia.
    + apply (f_equal String.length) in Hsub.
      simpl in HD. injection HD as <-.
      rewrite length_append in Hsub. simpl in Hsub. lia.
  - intros sub. apply domain_allows_iff. rewrite Hd. right.
    exists D. split; [reflexivity | now exists sub].
Qed.

Lemma wildcard_excludes_apex_witness :
  domain_allows "example.org" (with_domain "*.example.org") = false
  /\ domain_allows "a.b.example.org" (with_domain "*.example.org") = true.
Proof.
  destruct (wildcard_excludes_apex "example.org"
              (with_domain "*.example.org") eq_refl) as [Hapex Hsub].
  split; [exact Hapex | exact (Hsub "a.b")].
Defined.

(** X15: [verifyDomain] does not look at the [active] flag of an
    integration: after [deactivateIntegration], it decides every request
    as before, with the same call of [next] or the same answer. *)
Theorem deactivated_integration_still_allows
  (URL_hostname : string -> result string) (w : World Database)
  (id now : Z) :
  let w' :=
    with_storage w
      (with_tables (storage w)
         (fst (PgStorage.deactivateIntegration id now (tables (storage w)))))
  in
  exists v v' s,
    verifyDomain URL_hostname w = Some (v, s)
    /\ verifyDomain URL_hostname w' = Some (v', s)
    /\ res v' = res v.
Proof.
  cbn zeta. apply verifyDomain_same_domains; try reflexivity.
  intros k. simpl. destruct (online (storage w)); [|exact I].
  symmetry. apply domains_after_deactivation.
Qed.
